(** * Walrus Agent SDK: the blockchain event engine

    A shallow embedding of [walrus_agent_sdk/blockchain.py] (the RPC
    transport with its retry loop, the checkpoint cursor, the event matcher,
    the dispatcher and the polling loop), of the constants of
    [walrus_agent_sdk/config.py] and of the handler registration of
    [walrus_agent_sdk/agent.py].

    Python values are the JSON-shaped values the engine sees: [None], bools,
    ints, strings, lists and dicts.  Floats are left out of the value type.
    Strings are sequences of characters with ASCII case folding.  Dicts are
    association lists in insertion order; a lookup returns the first binding
    of a key. *)

From Stdlib Require Import String Ascii List ZArith Lia Bool Arith.
From Stdlib Require Import DecimalString Permutation Sorted.
Import ListNotations.
Set Warnings "-register-all".
Local Open Scope string_scope.
Local Open Scope list_scope.

(** ** Python values *)

Module Py.

Inductive value : Type :=
| VNone
| VBool (b : bool)
| VInt (n : Z)
| VStr (s : string)
| VList (l : list value)
| VDict (d : list (string * value)).

Definition dict := list (string * value).

(** Exceptions: the class and [str(e)]. *)
Inductive exn_class :=
| BlockchainError | AttributeError | KeyError | TypeError | ValueError.

Record exn := Exn { exn_cls : exn_class; exn_msg : string }.

Inductive result (A : Type) : Type :=
| Ok (a : A)
| Raise (e : exn).
Arguments Ok {A} a.
Arguments Raise {A} e.

Definition rbind {A B} (r : result A) (k : A -> result B) : result B :=
  match r with
  | Ok a => k a
  | Raise e => Raise e
  end.

(** [type(v).__name__] *)
Definition type_name (v : value) : string :=
  match v with
  | VNone => "NoneType"
  | VBool _ => "bool"
  | VInt _ => "int"
  | VStr _ => "str"
  | VList _ => "list"
  | VDict _ => "dict"
  end.

Definition no_attribute (v : value) (attr : string) : exn :=
  Exn AttributeError
      ("'" ++ type_name v ++ "' object has no attribute '" ++ attr ++ "'").

(** *** Dicts *)

(** [d.get(k)] with [None] for a missing key *)
Fixpoint dict_get (d : dict) (k : string) : option value :=
  match d with
  | [] => None
  | (k', v) :: rest => if String.eqb k k' then Some v else dict_get rest k
  end.

(** [k in d] *)
Definition dict_mem (k : string) (d : dict) : bool :=
  match dict_get d k with Some _ => true | None => false end.

(** [d.get(k, default)] *)
Definition dict_get_default (d : dict) (k : string) (default : value) : value :=
  match dict_get d k with Some v => v | None => default end.

(** [d[k] = v] on a dict with values of any type: an existing key keeps
    its place, a new key goes last *)
Fixpoint assoc_set {V} (d : list (string * V)) (k : string) (v : V)
  : list (string * V) :=
  match d with
  | [] => [(k, v)]
  | (k', v') :: rest =>
      if String.eqb k k' then (k, v) :: rest else (k', v') :: assoc_set rest k v
  end.

Definition dict_set (d : dict) (k : string) (v : value) : dict :=
  assoc_set d k v.

(** [del d[k]] *)
Fixpoint assoc_del {V} (d : list (string * V)) (k : string)
  : list (string * V) :=
  match d with
  | [] => []
  | (k', v') :: rest =>
      if String.eqb k k' then rest else (k', v') :: assoc_del rest k
  end.

Fixpoint assoc_mem {V} (d : list (string * V)) (k : string) : bool :=
  match d with
  | [] => false
  | (k', _) :: rest => String.eqb k k' || assoc_mem rest k
  end.

(** [d or {}] *)
Definition dict_or_empty (d : option dict) : dict :=
  match d with
  | Some d => d
  | None => []
  end.

(** *** Equality: [a == b] *)

Definition Z_of_bool (b : bool) : Z := if b then 1%Z else 0%Z.

(** [bool] is a subclass of [int]: [True == 1] and [False == 0].  Lists are
    compared element by element, dicts by size and by key. *)
Fixpoint py_eq (a b : value) {struct a} : bool :=
  match a, b with
  | VNone, VNone => true
  | VBool x, VBool y => Bool.eqb x y
  | VBool x, VInt n => Z.eqb (Z_of_bool x) n
  | VInt m, VBool y => Z.eqb m (Z_of_bool y)
  | VInt m, VInt n => Z.eqb m n
  | VStr s, VStr t => String.eqb s t
  | VList l, VList l' =>
      (fix eq_items (xs ys : list value) {struct xs} : bool :=
         match xs, ys with
         | [], [] => true
         | x :: xs', y :: ys' => py_eq x y && eq_items xs' ys'
         | _, _ => false
         end) l l'
  | VDict d, VDict d' =>
      Nat.eqb (length d) (length d') &&
      (fix eq_entries (es : list (string * value)) {struct es} : bool :=
         match es with
         | [] => true
         | (k, v) :: es' =>
             match dict_get d' k with
             | Some v' => py_eq v v'
             | None => false
             end && eq_entries es'
         end) d
  | _, _ => false
  end.

(** [a != b] *)
Definition py_ne (a b : value) : bool := negb (py_eq a b).

(** Truthiness of a string: [bool(s)] *)
Definition str_truthy (s : string) : bool :=
  match s with EmptyString => false | _ => true end.

(** *** Strings *)

Definition lower_char (c : ascii) : ascii :=
  let n := nat_of_ascii c in
  if ((65 <=? n) && (n <=? 90))%nat then ascii_of_nat (n + 32) else c.

Definition upper_char (c : ascii) : ascii :=
  let n := nat_of_ascii c in
  if ((97 <=? n) && (n <=? 122))%nat then ascii_of_nat (n - 32) else c.

(** [s.lower()] and [s.upper()] *)
Fixpoint str_lower (s : string) : string :=
  match s with
  | EmptyString => EmptyString
  | String c r => String (lower_char c) (str_lower r)
  end.

Fixpoint str_upper (s : string) : string :=
  match s with
  | EmptyString => EmptyString
  | String c r => String (upper_char c) (str_upper r)
  end.

(** [sub in s] *)
Fixpoint str_contains (sub s : string) : bool :=
  String.prefix sub s ||
  match s with
  | EmptyString => false
  | String _ r => str_contains sub r
  end.

(** [s.split(sep)] for a one-character separator *)
Fixpoint str_split (sep : ascii) (s : string) : list string :=
  match s with
  | EmptyString => [EmptyString]
  | String c r =>
      if Ascii.eqb c sep then EmptyString :: str_split sep r
      else match str_split sep r with
           | [] => [String c EmptyString]
           | p :: ps => String c p :: ps
           end
  end.

(** [sep.join(parts)] *)
Fixpoint str_join (sep : string) (parts : list string) : string :=
  match parts with
  | [] => EmptyString
  | [p] => p
  | p :: rest => p ++ sep ++ str_join sep rest
  end.

(** [str(n)] for a natural number and for an integer *)
Definition str_of_nat (n : nat) : string :=
  NilEmpty.string_of_uint (Nat.to_uint n).

Definition str_of_Z (z : Z) : string :=
  match z with
  | Z0 => "0"
  | Zpos p => str_of_nat (Pos.to_nat p)
  | Zneg p => "-" ++ str_of_nat (Pos.to_nat p)
  end.

(** [range(lo, hi)] *)
Fixpoint range_from (lo : Z) (n : nat) : list Z :=
  match n with
  | O => []
  | S n' => lo :: range_from (lo + 1)%Z n'
  end.

Definition py_range (lo hi : Z) : list Z := range_from lo (Z.to_nat (hi - lo)).

(** The characters of a string, as [for c in s] gives them *)
Fixpoint str_chars (s : string) : list string :=
  match s with
  | EmptyString => []
  | String c r => String c EmptyString :: str_chars r
  end.

(** [for x in v]: the items the loop visits *)
Definition py_iter (v : value) : result (list value) :=
  match v with
  | VList l => Ok l
  | VDict d => Ok (map (fun kv => VStr (fst kv)) d)
  | VStr s => Ok (map VStr (str_chars s))
  | _ => Raise (Exn TypeError ("'" ++ type_name v ++ "' object is not iterable"))
  end.

End Py.
Import Py.

(** ** [config.py] *)

Module config.
Definition POLLING_INTERVAL : Z := 5.
Definition MAX_RETRIES : nat := 3.
Definition RETRY_DELAY : Z := 2.
Definition DEFAULT_SUI_RPC_URL : string := "https://fullnode.devnet.sui.io:443".
End config.

(** ** [blockchain.py]: event categories and the matcher *)

Inductive EventType :=
| NFT_TRANSFER | TOKEN_TRANSFER | OBJECT_CHANGE | MOVE_EVENT
| EPOCH_CHANGE | CHECKPOINT | CUSTOM.

(** [event_type.value] *)
Definition EventType_value (t : EventType) : string :=
  match t with
  | NFT_TRANSFER => "nft_transfer"
  | TOKEN_TRANSFER => "token_transfer"
  | OBJECT_CHANGE => "object_change"
  | MOVE_EVENT => "move_event"
  | EPOCH_CHANGE => "epoch_change"
  | CHECKPOINT => "checkpoint"
  | CUSTOM => "custom"
  end.

(** [event_type.name] *)
Definition EventType_name (t : EventType) : string :=
  match t with
  | NFT_TRANSFER => "NFT_TRANSFER"
  | TOKEN_TRANSFER => "TOKEN_TRANSFER"
  | OBJECT_CHANGE => "OBJECT_CHANGE"
  | MOVE_EVENT => "MOVE_EVENT"
  | EPOCH_CHANGE => "EPOCH_CHANGE"
  | CHECKPOINT => "CHECKPOINT"
  | CUSTOM => "CUSTOM"
  end.

Definition EventType_members : list EventType :=
  [NFT_TRANSFER; TOKEN_TRANSFER; OBJECT_CHANGE; MOVE_EVENT;
   EPOCH_CHANGE; CHECKPOINT; CUSTOM].

(** [EventType[name]]: [None] stands for the [KeyError] *)
Definition EventType_getitem (name : string) : option EventType :=
  find (fun t => String.eqb (EventType_name t) name) EventType_members.

(** [sub not in v.lower()]; a value that is not a string has no [lower] *)
Definition not_in_lower (sub : string) (v : value) : result bool :=
  match v with
  | VStr s => Ok (negb (str_contains sub (str_lower s)))
  | _ => Raise (no_attribute v "lower")
  end.

(** [a and b], the right operand evaluated only when the left one is true *)
Definition and_then (a : result bool) (b : result bool) : result bool :=
  rbind a (fun x => if x then b else Ok false).

(** The [if]/[elif] chain on the category.  [Ok true] stands for
    [return False], [Ok false] for falling through to the filter loop. *)
Definition type_rejects (event_type : EventType) (event_type_str : value)
  : result bool :=
  match event_type with
  | CUSTOM => Ok false
  | NFT_TRANSFER =>
      and_then (not_in_lower "nft" event_type_str)
               (not_in_lower "transfer" event_type_str)
  | TOKEN_TRANSFER =>
      and_then (not_in_lower "coin" event_type_str)
               (not_in_lower "transfer" event_type_str)
  | OBJECT_CHANGE => not_in_lower "object" event_type_str
  | MOVE_EVENT => Ok false
  | EPOCH_CHANGE => not_in_lower "epoch" event_type_str
  | CHECKPOINT => not_in_lower "checkpoint" event_type_str
  end.

(** [for part in parts]: [None] stands for [return False] inside the loop,
    [Some current] for the value held when the loop ends. *)
Fixpoint walk_parts (parts : list string) (current : value) : option value :=
  match parts with
  | [] => Some current
  | part :: rest =>
      match current with
      | VDict d =>
          match dict_get d part with
          | Some v => walk_parts rest v
          | None => None
          end
      | _ => None
      end
  end.

(** [for key, value in filter_params.items()], ending in [return True] *)
Fixpoint filter_loop (event : dict) (items : list (string * value)) : bool :=
  match items with
  | [] => true
  | (key, value) :: rest =>
      if str_contains "." key then
        match walk_parts (str_split "."%char key) (VDict event) with
        | None => false
        | Some current =>
            if py_ne current value then false else filter_loop event rest
        end
      else
        match dict_get event key with
        | None => false
        | Some v => if py_ne v value then false else filter_loop event rest
        end
  end.

Definition _event_matches (event : dict) (event_type : EventType)
           (filter_params : dict) : result bool :=
  let event_type_str := dict_get_default event "type" (VStr "") in
  rbind (type_rejects event_type event_type_str)
        (fun rejected =>
           if rejected then Ok false else Ok (filter_loop event filter_params)).

(** ** The client, the node and the effects of a run *)

(** One HTTP attempt: what [requests.post], [raise_for_status] and
    [response.json()] give.  [e] is [str(e)] of the exception.  A body is a
    JSON object. *)
Inductive http_outcome :=
| RequestException (e : string)
| JSONDecodeError (e : string)
| Body (result : dict).

(** What a run does to the outside, in order. *)
Inductive effect :=
| Post (url method : string) (params : list value)
| Sleep (seconds : Z)
| Wait (seconds : Z)
| Called (subscription_id : string) (event : dict).

(** An entry of the registry.  A callback is a function of the event that
    returns, or raises an exception; it has no access to the client. *)
Record listener := {
  event_type : EventType;
  callback : dict -> result unit;
  filter_params : dict
}.

Record BlockchainClient := {
  rpc_url : string;
  private_key : string;
  _event_listeners : list (string * listener);
  _last_processed_checkpoint : option Z
}.

(** The client object and the effects so far, latest last. *)
Record world := {
  self : BlockchainClient;
  trace : list effect
}.

Definition is_post (e : effect) : bool :=
  match e with Post _ _ _ => true | _ => false end.

(** The number of HTTP attempts made so far. *)
Definition posts (w : world) : nat := length (filter is_post (trace w)).

(** What the code takes from outside itself: the constants of [config.py]
    and the environment, the node ([node n method params] answers the
    attempt made after [n] earlier ones), and two Python builtins:
    [repr(v)] and [int(s)] of a string ([None] for the [ValueError]). *)
Record Env := {
  MAX_RETRIES : nat;
  RETRY_DELAY : Z;
  POLLING_INTERVAL : Z;
  SUI_RPC_URL : string;
  SUI_PRIVATE_KEY : string;
  node : nat -> string -> list value -> http_outcome;
  py_repr : value -> string;
  int_of_str : string -> option Z
}.

(** Computations that change the world and may raise; a raise keeps the
    changes made before it. *)
Definition M (A : Type) : Type := world -> result A * world.

Definition ret {A} (a : A) : M A := fun w => (Ok a, w).

Definition raise {A} (e : exn) : M A := fun w => (Raise e, w).

Definition bind {A B} (c : M A) (k : A -> M B) : M B :=
  fun w =>
    match c w with
    | (Ok a, w') => k a w'
    | (Raise e, w') => (Raise e, w')
    end.

(** [try: c  except Exception as e: handler e] *)
Definition try_except {A} (c : M A) (handler : exn -> M A) : M A :=
  fun w =>
    match c w with
    | (Ok a, w') => (Ok a, w')
    | (Raise e, w') => handler e w'
    end.

Definition lift {A} (r : result A) : M A := fun w => (r, w).

(** The world after some more effects *)
Definition add_trace (w : world) (t : list effect) : world :=
  {| self := self w; trace := trace w ++ t |}.

Definition emit (e : effect) : M unit :=
  fun w => (Ok tt, add_trace w [e]).

Definition get_self : M BlockchainClient := fun w => (Ok (self w), w).

Definition put_self (c : BlockchainClient) : M unit :=
  fun w => (Ok tt, {| self := c; trace := trace w |}).

Declare Scope py_scope.
Delimit Scope py_scope with py.
Notation "x <- c ;; k" := (bind c (fun x => k))
  (at level 61, c at next level, right associativity) : py_scope.
Notation "c ;; k" := (bind c (fun _ => k))
  (at level 61, right associativity) : py_scope.
Local Open Scope py_scope.

(** [for x in xs: body x] *)
Fixpoint for_each {A} (xs : list A) (body : A -> M unit) : M unit :=
  match xs with
  | [] => ret tt
  | x :: rest => body x ;; for_each rest body
  end.

(** [str(v)] and [int(v)] *)
Definition py_str (E : Env) (v : value) : string :=
  match v with
  | VStr s => s
  | _ => py_repr E v
  end.

Definition py_int (E : Env) (v : value) : result Z :=
  match v with
  | VInt n => Ok n
  | VBool b => Ok (Z_of_bool b)
  | VStr s =>
      match int_of_str E s with
      | Some n => Ok n
      | None =>
          Raise (Exn ValueError
                     ("invalid literal for int() with base 10: "
                        ++ py_repr E v))
      end
  | _ =>
      Raise (Exn TypeError
                 ("int() argument must be a string, a bytes-like object "
                    ++ "or a real number, not '" ++ type_name v ++ "'"))
  end.

(** [self._last_processed_checkpoint = c] *)
Definition with_checkpoint (s : BlockchainClient) (c : option Z)
  : BlockchainClient :=
  {| rpc_url := rpc_url s;
     private_key := private_key s;
     _event_listeners := _event_listeners s;
     _last_processed_checkpoint := c |}.

Definition set_checkpoint (c : option Z) : M unit :=
  s <- get_self ;;
  put_self (with_checkpoint s c).

Section Client.

Variable E : Env.

(** [BlockchainClient(rpc_url, private_key)]: [x or default] *)
Definition __init__ (url key : option string) : BlockchainClient :=
  {| rpc_url :=
       match url with
       | Some u => if str_truthy u then u else SUI_RPC_URL E
       | None => SUI_RPC_URL E
       end;
     private_key :=
       match key with
       | Some k => if str_truthy k then k else SUI_PRIVATE_KEY E
       | None => SUI_PRIVATE_KEY E
       end;
     _event_listeners := [];
     _last_processed_checkpoint := None |}.

(** One attempt: [requests.post] up to [response.json()]. *)
Definition requests_post (method : string) (params : list value)
  : M http_outcome :=
  fun w =>
    (Ok (node E (posts w) method params),
     add_trace w [Post (rpc_url (self w)) method params]).

(** [result["error"].get("message", str(result["error"]))] *)
Definition error_message (err : value) : result value :=
  match err with
  | VDict d => Ok (dict_get_default d "message" (VStr (py_str E err)))
  | _ => Raise (no_attribute err "get")
  end.

(** The [while retry_count < MAX_RETRIES] loop.  [fuel] bounds the number
    of iterations; [_make_rpc_call] gives it more than the loop can use.
    Leaving the loop by its condition ends the function, which returns
    [None]. *)
Fixpoint rpc_loop (fuel retry_count : nat) (method : string)
         (params : list value) : M value :=
  match fuel with
  | O => ret VNone
  | S fuel' =>
      if (retry_count <? MAX_RETRIES E)%nat then
        outcome <- requests_post method params ;;
        match outcome with
        | Body result =>
            match dict_get result "error" with
            | Some err =>
                error_msg <- lift (error_message err) ;;
                raise (Exn BlockchainError
                           ("RPC error: " ++ py_str E error_msg))
            | None =>
                match dict_get result "result" with
                | Some r => ret r
                | None => raise (Exn KeyError "'result'")
                end
            end
        | RequestException e | JSONDecodeError e =>
            let retry_count := retry_count + 1 in
            if (MAX_RETRIES E <=? retry_count)%nat then
              raise (Exn BlockchainError
                         ("Failed to make RPC call after "
                            ++ str_of_nat (MAX_RETRIES E)
                            ++ " retries: " ++ e))
            else
              emit (Sleep (RETRY_DELAY E)) ;;
              rpc_loop fuel' retry_count method params
        end
      else ret VNone
  end.

(** [_make_rpc_call]; a call without [params] passes the empty list. *)
Definition _make_rpc_call (method : string) (params : list value) : M value :=
  rpc_loop (S (MAX_RETRIES E)) 0 method params.

Definition get_latest_checkpoint : M Z :=
  try_except
    (result <- _make_rpc_call "sui_getLatestCheckpointSequenceNumber" [] ;;
     lift (py_int E result))
    (fun e =>
       raise (Exn BlockchainError
                  ("Failed to get latest checkpoint: " ++ exn_msg e))).

Definition get_events_by_checkpoint (checkpoint : Z) : M value :=
  try_except
    (_make_rpc_call "sui_getCheckpointEvents" [VInt checkpoint])
    (fun _ => ret (VList [])).

(** [subscribe_to_events]; [now] is [int(time.time())].  Starting the
    polling thread is outside the model: the loop is run by
    [_poll_events]. *)
Definition subscribe_to_events (event_type : EventType)
           (callback : dict -> result unit) (filter_params : option dict)
           (now : Z) : M string :=
  s <- get_self ;;
  let subscription_id :=
    (EventType_value event_type ++ "_" ++ str_of_Z now ++ "_"
       ++ str_of_nat (length (_event_listeners s)))%string in
  put_self {| rpc_url := rpc_url s;
              private_key := private_key s;
              _event_listeners :=
                assoc_set (_event_listeners s) subscription_id
                          {| event_type := event_type;
                             callback := callback;
                             filter_params := dict_or_empty filter_params |};
              _last_processed_checkpoint := _last_processed_checkpoint s |} ;;
  ret subscription_id.

(** [unsubscribe_from_events]; setting the stop flag and joining the
    thread are outside the model. *)
Definition unsubscribe_from_events (subscription_id : string) : M bool :=
  s <- get_self ;;
  if assoc_mem (_event_listeners s) subscription_id then
    put_self {| rpc_url := rpc_url s;
                private_key := private_key s;
                _event_listeners :=
                  assoc_del (_event_listeners s) subscription_id;
                _last_processed_checkpoint := _last_processed_checkpoint s |} ;;
    ret true
  else ret false.

(** The inner loop of [_process_events]: one event offered to every
    listener.  A fault of the matcher is not caught; a fault of the
    callback is. *)
Definition offer (event : dict) (entry : string * listener) : M unit :=
  let (subscription_id, listener) := entry in
  matched <- lift (_event_matches event (event_type listener)
                                  (filter_params listener)) ;;
  if matched then
    try_except
      (emit (Called subscription_id event) ;;
       lift (callback listener event))
      (fun _ => ret tt)
  else ret tt.

Definition _process_events (events : value) : M unit :=
  items <- lift (py_iter events) ;;
  for_each items
    (fun event =>
       match event with
       | VDict d =>
           s <- get_self ;;
           for_each (_event_listeners s) (offer d)
       | _ => raise (no_attribute event "get")
       end).

(** The body of [for checkpoint in range(...)] *)
Definition process_checkpoint (checkpoint : Z) : M unit :=
  events <- get_events_by_checkpoint checkpoint ;;
  _process_events events ;;
  set_checkpoint (Some checkpoint).

(** The part of [_poll_events] before the loop *)
Definition poll_start : M unit :=
  s <- get_self ;;
  match _last_processed_checkpoint s with
  | None =>
      try_except
        (c <- get_latest_checkpoint ;; set_checkpoint (Some c))
        (fun _ => set_checkpoint (Some 0%Z))
  | Some _ => ret tt
  end.

(** One iteration of [while not self._should_stop_polling.is_set()] *)
Definition poll_cycle : M unit :=
  try_except
    (latest_checkpoint <- get_latest_checkpoint ;;
     s <- get_self ;;
     match _last_processed_checkpoint s with
     | None =>
         raise (Exn TypeError
                    "unsupported operand type(s) for +: 'NoneType' and 'int'")
     | Some last =>
         for_each (py_range (last + 1) (latest_checkpoint + 1))
                  process_checkpoint
     end ;;
     emit (Wait (POLLING_INTERVAL E)))
    (fun _ => emit (Wait (RETRY_DELAY E))).

Fixpoint poll_cycles (iterations : nat) : M unit :=
  match iterations with
  | O => ret tt
  | S n => poll_cycle ;; poll_cycles n
  end.

(** [_poll_events], for a run in which the stop flag is seen set after
    [iterations] passes of the loop. *)
Definition _poll_events (iterations : nat) : M unit :=
  poll_start ;; poll_cycles iterations.

(** [execute_transaction]; [now] is [int(time.time())] and [now_iso] is
    [datetime.now().isoformat()]. *)
Definition execute_transaction (tx_data : dict) (now : Z) (now_iso : string)
  : M value :=
  s <- get_self ;;
  if negb (str_truthy (private_key s)) then
    raise (Exn BlockchainError
               "Private key not set. Cannot execute transactions.")
  else
    let digest := ("mock_tx_" ++ str_of_Z now)%string in
    ret (VDict
           [("digest", VStr digest);
            ("status", VStr "success");
            ("timestamp", VStr now_iso);
            ("effects",
             VDict [("status", VStr "success");
                    ("gasUsed",
                     VDict [("computationCost", VStr "1000");
                            ("storageCost", VStr "500");
                            ("storageRebate", VStr "200")])])]).

(** ** [agent.py]: registering a handler by name *)

Record WalrusAgent := {
  event_handlers : list (string * (dict -> result unit));
  event_subscriptions : list (string * string)
}.

(** [try: EventType[event_name.upper()]  except KeyError: ...]: the
    category and the filter handed on to [subscribe_to_events] *)
Definition event_type_of_name (event_name : string)
           (filter_params : option dict) : EventType * option dict :=
  match EventType_getitem (str_upper event_name) with
  | Some event_type => (event_type, filter_params)
  | None =>
      let filter_params :=
        match filter_params with
        | None => []
        | Some d => d
        end in
      (CUSTOM, Some (dict_set filter_params "type" (VStr event_name)))
  end.

Definition _register_event_handler (agent : WalrusAgent) (event_name : string)
           (handler : dict -> result unit) (filter_params : option dict)
           (now : Z) : M WalrusAgent :=
  let (event_type, filter_params) :=
    event_type_of_name event_name filter_params in
  let handlers := assoc_set (event_handlers agent) event_name handler in
  subscription_id <-
    subscribe_to_events event_type handler filter_params now ;;
  ret {| event_handlers := handlers;
         event_subscriptions :=
           assoc_set (event_subscriptions agent) event_name subscription_id |}.

End Client.

(** ** The matcher as the specification words it *)

(** [sub] occurs in [s] *)
Definition occurs_in (sub s : string) : Prop :=
  exists pre post, s = (pre ++ sub ++ post)%string.

(** The substrings a category looks for in the type string; the
    contract-emitted and the custom category look for none. *)
Definition inspects_type (c : EventType) : bool :=
  match c with
  | MOVE_EVENT | CUSTOM => false
  | _ => true
  end.

Definition designated (c : EventType) : list string :=
  match c with
  | NFT_TRANSFER => ["nft"; "transfer"]
  | TOKEN_TRANSFER => ["coin"; "transfer"]
  | OBJECT_CHANGE => ["object"]
  | EPOCH_CHANGE => ["epoch"]
  | CHECKPOINT => ["checkpoint"]
  | MOVE_EVENT | CUSTOM => []
  end.

(** The type string of an event: empty when the field is absent, none when
    the field holds something else than a string. *)
Definition type_string (event : dict) : option string :=
  match dict_get event "type" with
  | None => Some EmptyString
  | Some (VStr s) => Some s
  | Some _ => None
  end.

Definition category_predicate (c : EventType) (event : dict) : Prop :=
  inspects_type c = true ->
  exists s sub,
    type_string event = Some s /\ In sub (designated c) /\
    occurs_in sub (str_lower s).

(** Descending a tree one path segment at a time *)
Inductive descends : value -> list string -> value -> Prop :=
| descends_end v : descends v [] v
| descends_step d segment rest v w :
    dict_get d segment = Some v ->
    descends v rest w ->
    descends (VDict d) (segment :: rest) w.

(** A descent that stops early: a segment is missing, or the value reached
    is not a dict *)
Inductive blocked : value -> list string -> Prop :=
| blocked_leaf v segment rest :
    (forall d, v <> VDict d) -> blocked v (segment :: rest)
| blocked_missing d segment rest :
    dict_get d segment = None -> blocked (VDict d) (segment :: rest)
| blocked_below d segment rest v :
    dict_get d segment = Some v ->
    blocked v rest ->
    blocked (VDict d) (segment :: rest).

(** [key] names [x] in [event]: the key is a dot-separated path of
    segments (a plain key is a path of one segment). *)
Definition resolves (event : dict) (key : string) (x : value) : Prop :=
  exists segments,
    segments <> [] /\
    str_join "." segments = key /\
    Forall (fun segment => ~ occurs_in "." segment) segments /\
    descends (VDict event) segments x.

Definition entry_holds (event : dict) (entry : string * value) : Prop :=
  exists x, resolves event (fst entry) x /\ py_eq x (snd entry) = true.

Definition matches_spec (event : dict) (c : EventType) (filter : dict)
  : Prop :=
  category_predicate c event /\ Forall (entry_holds event) filter.

(** The [type] field is absent or holds a string *)
Definition type_absent_or_string (event : dict) : Prop :=
  dict_get event "type" = None \/
  exists s, dict_get event "type" = Some (VStr s).

(** ** Runs of the transport *)

(** [str(e)] of an attempt that raised what the retry loop catches *)
Definition network_failure (o : http_outcome) : option string :=
  match o with
  | RequestException e | JSONDecodeError e => Some e
  | Body _ => None
  end.

(** The effects of [k] failed attempts, each followed by its sleep *)
Fixpoint failed_attempts (E : Env) (url method : string)
         (params : list value) (k : nat) : list effect :=
  match k with
  | O => []
  | S k' =>
      Post url method params :: Sleep (RETRY_DELAY E)
           :: failed_attempts E url method params k'
  end.

(** The checkpoint cursor *)
Definition cursor (w : world) : option Z :=
  _last_processed_checkpoint (self w).

(** An effect that fetches the events of checkpoint [c] *)
Definition fetches (e : effect) (c : Z) : Prop :=
  exists url, e = Post url "sui_getCheckpointEvents" [VInt c].

(** An environment with the constants of [config.py], nothing set in the
    process environment, and a given node.  The two builtins are constant
    functions: they are only reached through error messages and through
    [int] of a string. *)
Definition shipped (node : nat -> string -> list value -> http_outcome)
  : Env :=
  {| MAX_RETRIES := config.MAX_RETRIES;
     RETRY_DELAY := config.RETRY_DELAY;
     POLLING_INTERVAL := config.POLLING_INTERVAL;
     SUI_RPC_URL := config.DEFAULT_SUI_RPC_URL;
     SUI_PRIVATE_KEY := EmptyString;
     node := node;
     py_repr := fun _ => EmptyString;
     int_of_str := fun _ => None |}.

(** A node that answers the attempts in order from a script *)
Definition scripted (script : list http_outcome) (otherwise : http_outcome)
  : nat -> string -> list value -> http_outcome :=
  fun n _ _ => nth n script otherwise.

(** A fresh client in a world without effects *)
Definition fresh (E : Env) (key : option string) : world :=
  {| self := __init__ E None key; trace := [] |}.

(** A node whose chain head is [head], that refuses every fetch of the
    events of checkpoint [bad] and answers every other fetch with no
    events *)
Definition node_refusing (bad head : Z)
  : nat -> string -> list value -> http_outcome :=
  fun _ method params =>
    if String.eqb method "sui_getLatestCheckpointSequenceNumber" then
      Body [("jsonrpc", VStr "2.0"); ("id", VInt 1); ("result", VInt head)]
    else
      match params with
      | [VInt c] =>
          if Z.eqb c bad then RequestException "connection refused"
          else Body [("jsonrpc", VStr "2.0"); ("id", VInt 1);
                     ("result", VList [])]
      | _ => RequestException "connection refused"
      end.


(** ** Runs of the polling loop *)

(** A computation that only adds effects, all of them in [P] *)
Definition appends {A} (P : effect -> Prop) (c : M A) : Prop :=
  forall w, exists t, snd (c w) = add_trace w t /\ Forall P t.

(** The world with the cursor moved to [k] and more effects *)
Definition moved (w : world) (k : option Z) (t : list effect) : world :=
  {| self := with_checkpoint (self w) k; trace := trace w ++ t |}.

(** The effects of one RPC call *)
Definition rpc_effect (method : string) (params : list value) (e : effect)
  : Prop :=
  (exists url, e = Post url method params) \/ (exists d, e = Sleep d).

Definition is_call (e : effect) : Prop :=
  exists subscription_id event, e = Called subscription_id event.

(** An effect that fetches no events of a checkpoint up to [k] *)
Definition observed_after (k : Z) (e : effect) : Prop :=
  forall c, fetches e c -> (k < c)%Z.

(** A cycle that has got the latest checkpoint, in the world [w1] with the
    cursor at [k], and whose dispatch raises at checkpoint [k' + 1]: the
    passes for the checkpoints after [k] up to [k'] end normally and leave
    the world [w2]; from there the events of checkpoint [k' + 1] are
    fetched, and their dispatch raises; the cycle ends in [final], after
    the back-off wait. *)
Definition dispatch_raises_after (E : Env) (w1 : world) (k k' : Z)
           (final : world) : Prop :=
  exists w2 w3 w4 events e,
    for_each (py_range (k + 1) (k' + 1)) (process_checkpoint E) w1 =
    (Ok tt, w2) /\
    _make_rpc_call E "sui_getCheckpointEvents" [VInt (k' + 1)] w2 =
    (Ok events, w3) /\
    _process_events events w3 = (Raise e, w4) /\
    final = add_trace w4 [Wait (RETRY_DELAY E)].

(** ** [blockchain.py]: the object gateway *)

Section Gateways.

Variable E : Env.

Definition get_transaction_block (digest : string) : M value :=
  try_except
    (_make_rpc_call E "sui_getTransactionBlock"
                    [VStr digest;
                     VDict [("showEffects", VBool true);
                            ("showEvents", VBool true);
                            ("showObjectChanges", VBool true)]])
    (fun e =>
       raise (Exn BlockchainError
                  ("Failed to get transaction block " ++ digest ++ ": "
                     ++ exn_msg e))).

Definition get_object (object_id : string) : M value :=
  try_except
    (_make_rpc_call E "sui_getObject"
                    [VStr object_id;
                     VDict [("showContent", VBool true);
                            ("showDisplay", VBool true);
                            ("showOwner", VBool true)]])
    (fun e =>
       raise (Exn BlockchainError
                  ("Failed to get object " ++ object_id ++ ": "
                     ++ exn_msg e))).

(** [filter_params = {}; if object_type: filter_params["StructType"] = ...] *)
Definition owned_objects_filter (object_type : option string) : dict :=
  match object_type with
  | Some t => if str_truthy t then dict_set [] "StructType" (VStr t) else []
  | None => []
  end.

Definition get_owned_objects (address : string) (object_type : option string)
  : M value :=
  let filter_params := owned_objects_filter object_type in
  try_except
    (result <- _make_rpc_call E "sui_getOwnedObjects"
                              [VStr address; VDict filter_params;
                               VNone; VInt 100] ;;
     match result with
     | VDict r => ret (dict_get_default r "data" (VList []))
     | _ => raise (no_attribute result "get")
     end)
    (fun e =>
       raise (Exn BlockchainError
                  ("Failed to get objects owned by " ++ address ++ ": "
                     ++ exn_msg e))).

End Gateways.

(** ** [agent.py]: removing a handler, and the gateway of the agent *)

(** [d.get(k)] on a dict with values of any type *)
Fixpoint assoc_get {V} (d : list (string * V)) (k : string) : option V :=
  match d with
  | [] => None
  | (k', v) :: rest => if String.eqb k k' then Some v else assoc_get rest k
  end.

(** What a method of the agent raises: its own error, or an exception of
    the client that it does not catch. *)
Inductive agent_exn :=
| WalrusAgentError (msg : string)
| Uncaught (e : exn).

Inductive agent_result (A : Type) : Type :=
| AOk (a : A)
| ARaise (e : agent_exn).
Arguments AOk {A} a.
Arguments ARaise {A} e.

(** [try: c  except BlockchainError as e: raise WalrusAgentError(f"{prefix}{e}")] *)
Definition except_BlockchainError {A} (prefix : string) (c : M A)
  : world -> agent_result A * world :=
  fun w =>
    match c w with
    | (Ok a, w') => (AOk a, w')
    | (Raise (Exn BlockchainError msg), w') =>
        (ARaise (WalrusAgentError (prefix ++ msg)), w')
    | (Raise e, w') => (ARaise (Uncaught e), w')
    end.

Definition execute_blockchain_action (action_data : dict) (now : Z)
           (now_iso : string) : world -> agent_result value * world :=
  except_BlockchainError "Failed to execute blockchain action: "
                         (execute_transaction action_data now now_iso).

Definition get_blockchain_object (E : Env) (object_id : string)
  : world -> agent_result value * world :=
  except_BlockchainError
    ("Failed to get blockchain object " ++ object_id ++ ": ")
    (get_object E object_id).

(** [remove_event_handler]: the value returned or the exception raised, the
    agent and the world afterwards.  The subscription is deleted from the
    agent before the handler is. *)
Definition remove_event_handler (E : Env) (agent : WalrusAgent)
           (event_name : string) (w : world)
  : result bool * WalrusAgent * world :=
  match assoc_get (event_subscriptions agent) event_name with
  | Some subscription_id =>
      match unsubscribe_from_events subscription_id w with
      | (Ok true, w') =>
          let subscriptions :=
            assoc_del (event_subscriptions agent) event_name in
          if assoc_mem (event_handlers agent) event_name then
            (Ok true,
             {| event_handlers := assoc_del (event_handlers agent) event_name;
                event_subscriptions := subscriptions |},
             w')
          else
            (Raise (Exn KeyError (py_repr E (VStr event_name))),
             {| event_handlers := event_handlers agent;
                event_subscriptions := subscriptions |},
             w')
      | (Ok false, w') => (Ok false, agent, w')
      | (Raise e, w') => (Raise e, agent, w')
      end
  | None => (Ok false, agent, w)
  end.

(** ** [utils.py] *)

Module utils.

(** [text[:n]]: a negative [n] counts from the end *)
Definition slice_to (text : string) (n : Z) : string :=
  let len := Z.of_nat (String.length text) in
  let stop := if (n <? 0)%Z then Z.max 0 (len + n) else Z.min n len in
  String.substring 0 (Z.to_nat stop) text.

Definition truncate_text (text : string) (max_length : Z) : string :=
  if (Z.of_nat (String.length text) <=? max_length)%Z then text
  else (slice_to text (max_length - 3) ++ "...")%string.

(** A message, of type [Dict[str, str]] *)
Definition message := list (string * string).

(** [message.get("role") == role] *)
Definition has_role (role : string) (m : message) : bool :=
  match assoc_get m "role" with
  | Some r => String.eqb r role
  | None => false
  end.

(** [message.get("content", "")] *)
Definition content_of (m : message) : string :=
  match assoc_get m "content" with
  | Some c => c
  | None => EmptyString
  end.

Definition extract_summary (messages : list message) (max_length : Z)
  : string :=
  match messages with
  | [] => "No messages"
  | _ =>
      match find (has_role "assistant") (rev messages) with
      | Some m => truncate_text (content_of m) max_length
      | None =>
          match find (has_role "user") (rev messages) with
          | Some m =>
              ("User: " ++ truncate_text (content_of m) max_length)%string
          | None => "No relevant messages"
          end
      end
  end.

(** [merge_dicts(dict1, dict2)] with [dict2] given as a value: the
    recursive call is on a value held by [dict2].  The loop goes through
    [dict2.items()] with [result], a copy of [dict1]. *)
Fixpoint merge_into (dict1 : dict) (dict2 : value) {struct dict2} : dict :=
  match dict2 with
  | VDict items =>
      (fix loop (result : dict) (items : list (string * value))
           {struct items} : dict :=
         match items with
         | [] => result
         | (key, value) :: rest =>
             loop (dict_set result key
                            match dict_get result key, value with
                            | Some (VDict inner), VDict _ =>
                                VDict (merge_into inner value)
                            | _, _ => value
                            end)
                  rest
         end) dict1 items
  | _ => dict1
  end.

Definition merge_dicts (dict1 dict2 : dict) : dict :=
  merge_into dict1 (VDict dict2).

End utils.

(** ** The events a dispatch delivers *)



(** The number of sleeps among some effects *)
Definition is_sleep (e : effect) : bool :=
  match e with Sleep _ => true | _ => false end.

(** The registry, and the fields of the client a run must not touch *)
Definition registry (w : world) : list (string * listener) :=
  _event_listeners (self w).

(** The id [subscribe_to_events] gives at time [now] in world [w] *)
Definition next_subscription_id (t : EventType) (now : Z) (w : world)
  : string :=
  (EventType_value t ++ "_" ++ str_of_Z now ++ "_"
     ++ str_of_nat (length (registry w)))%string.

(** What the operations of the gateway keep to: nothing is raised but the
    domain error, with the prefix of the operation; no more attempts are
    made than the budget allows; the client is left as it is. *)
Definition gateway_contract {A} (E : Env) (prefix : string) (op : M A)
  : Prop :=
  forall w,
    match fst (op w) with
    | Ok _ => True
    | Raise e => exists m, e = Exn BlockchainError (prefix ++ m)
    end /\
    (posts (snd (op w)) <= posts w + MAX_RETRIES E)%nat /\
    self (snd (op w)) = self w.

(** An environment like [shipped], with another budget of attempts *)
Definition with_budget (budget : nat)
           (node : nat -> string -> list value -> http_outcome) : Env :=
  {| MAX_RETRIES := budget;
     RETRY_DELAY := config.RETRY_DELAY;
     POLLING_INTERVAL := config.POLLING_INTERVAL;
     SUI_RPC_URL := config.DEFAULT_SUI_RPC_URL;
     SUI_PRIVATE_KEY := EmptyString;
     node := node;
     py_repr := fun _ => EmptyString;
     int_of_str := fun _ => None |}.

(** The checkpoint whose events an effect fetches, and the checkpoints
    fetched by some effects, in order, with an entry for every attempt *)
Definition fetch_of (e : effect) : option Z :=
  match e with
  | Post _ method [VInt c] =>
      if String.eqb method "sui_getCheckpointEvents" then Some c else None
  | _ => None
  end.

Definition fetched (t : list effect) : list Z :=
  flat_map (fun e => match fetch_of e with Some c => [c] | None => [] end) t.

(** ** Strings *)

Section Strings.

Lemma prefix_occurs (a s : string) :
  String.prefix a s = true <-> exists post, s = (a ++ post)%string.
Proof.
  revert a; induction s as [|c s IH]; intros [|b a]; simpl.
  - split; [exists EmptyString; reflexivity | reflexivity].
  - split; [discriminate | intros [post H]; discriminate].
  - split; [eexists; reflexivity | reflexivity].
  - destruct (ascii_dec b c) as [->|Hne].
    + rewrite IH. split; intros [post H]; exists post.
      * now subst.
      * now inversion H.
    + split; [discriminate|]. intros [post H]. inversion H. congruence.
Qed.

Lemma str_contains_occurs (sub s : string) :
  str_contains sub s = true <-> occurs_in sub s.
Proof.
  unfold occurs_in. induction s as [|c s IH].
  - cbn [str_contains]. rewrite orb_false_r, prefix_occurs. split.
    + intros [post H]. exists EmptyString, post. exact H.
    + intros [[|p pre] [post H]]; simpl in H.
      * exists post. exact H.
      * discriminate.
  - cbn [str_contains]. rewrite orb_true_iff, prefix_occurs, IH. split.
    + intros [[post H]|[pre [post H]]].
      * exists EmptyString, post. exact H.
      * exists (String c pre), post. simpl. now rewrite H.
    + intros [[|p pre] [post H]]; simpl in H.
      * left. exists post. exact H.
      * right. inversion H. now exists pre, post.
Qed.

Lemma prefix_dot (c : ascii) (s : string) :
  String.prefix "." (String c s) = Ascii.eqb c ".".
Proof.
  change (String.prefix "." (String c s))
    with (if ascii_dec "." c then String.prefix EmptyString s else false).
  destruct (ascii_dec "." c) as [<-|Hne].
  - now destruct s.
  - symmetry. apply Ascii.eqb_neq. congruence.
Qed.

Lemma no_dot_cons (c : ascii) (s : string) :
  str_contains "." (String c s) = false <->
  c <> "."%char /\ str_contains "." s = false.
Proof.
  change (str_contains "." (String c s))
    with (String.prefix "." (String c s) || str_contains "." s).
  rewrite prefix_dot, orb_false_iff, Ascii.eqb_neq. reflexivity.
Qed.

Lemma str_split_plain (s : string) :
  str_contains "." s = false -> str_split "." s = [s].
Proof.
  induction s as [|c s IH]; [reflexivity|].
  rewrite no_dot_cons. intros [Hc Hs]. simpl.
  apply Ascii.eqb_neq in Hc. rewrite Hc, (IH Hs). reflexivity.
Qed.

Lemma str_split_app (p r : string) :
  str_contains "." p = false ->
  str_split "." (p ++ String "." r) = p :: str_split "." r.
Proof.
  induction p as [|c p IH]; [reflexivity|].
  rewrite no_dot_cons. intros [Hc Hp]. simpl.
  apply Ascii.eqb_neq in Hc. rewrite Hc, (IH Hp). reflexivity.
Qed.

(** [split] undoes [join] on segments without dots. *)
Lemma str_split_join (segments : list string) :
  segments <> [] ->
  Forall (fun segment => str_contains "." segment = false) segments ->
  str_split "." (str_join "." segments) = segments.
Proof.
  induction segments as [|p rest IH]; [congruence|].
  intros _ Hall. inversion Hall as [|? ? Hp Hrest]; subst.
  destruct rest as [|q rest].
  - simpl. now apply str_split_plain.
  - change (str_join "." (p :: q :: rest))
      with (p ++ String "." (str_join "." (q :: rest)))%string.
    rewrite (str_split_app _ _ Hp), IH; [reflexivity|congruence|exact Hrest].
Qed.

Lemma str_split_nonempty (s : string) : str_split "." s <> [].
Proof.
  destruct s as [|c s]; simpl; [congruence|].
  destruct (Ascii.eqb c "."); [congruence|].
  destruct (str_split "." s); congruence.
Qed.

Lemma str_join_split (s : string) : str_join "." (str_split "." s) = s.
Proof.
  induction s as [|c s IH]; [reflexivity|].
  simpl. destruct (Ascii.eqb_spec c ".") as [->|Hne].
  - pose proof (str_split_nonempty s) as Hn.
    destruct (str_split "." s) as [|q rest]; [congruence|].
    change (str_join "." (EmptyString :: q :: rest))
      with (String "." (str_join "." (q :: rest))).
    now rewrite IH.
  - pose proof (str_split_nonempty s) as Hn.
    destruct (str_split "." s) as [|q rest]; [congruence|].
    destruct rest as [|q' rest]; simpl in *; now rewrite <- IH.
Qed.

Lemma str_split_no_dots (s : string) :
  Forall (fun segment => str_contains "." segment = false) (str_split "." s).
Proof.
  induction s as [|c s IH]; simpl.
  - constructor; [reflexivity|constructor].
  - destruct (Ascii.eqb_spec c ".") as [->|Hne].
    + constructor; [reflexivity|exact IH].
    + destruct (str_split "." s) as [|q rest].
      * constructor; [|constructor]. apply no_dot_cons. now split.
      * inversion IH; subst. constructor; [|assumption].
        apply no_dot_cons. now split.
Qed.

End Strings.

(** ** The matcher *)

Section Matcher.

Lemma walk_descends (parts : list string) (v x : value) :
  walk_parts parts v = Some x <-> descends v parts x.
Proof.
  revert v; induction parts as [|part rest IH]; intros v; simpl.
  - split.
    + intros [= ->]. constructor.
    + intros H. now inversion H.
  - split.
    + destruct v as [| | | | |d]; try discriminate.
      destruct (dict_get d part) as [v'|] eqn:Hget; [|discriminate].
      intros H. apply IH in H. econstructor; eassumption.
    + intros H. inversion H as [|d seg r v' w Hget Hd]; subst.
      rewrite Hget. now apply IH.
Qed.

Lemma walk_blocked (parts : list string) (v : value) :
  walk_parts parts v = None <-> blocked v parts.
Proof.
  revert v; induction parts as [|part rest IH]; intros v; simpl.
  - split; [discriminate|]. intros H. inversion H.
  - split.
    + destruct v as [| | | | |d];
        try (intros _; apply blocked_leaf; intros d' ?; discriminate).
      destruct (dict_get d part) as [v'|] eqn:Hget.
      * intros H. apply IH in H. eapply blocked_below; eassumption.
      * intros _. now apply blocked_missing.
    + intros H.
      inversion H as [v0 seg r Hnd|d seg r Hget|d seg r v' Hget Hb]; subst.
      * destruct v; try reflexivity. now elim (Hnd d).
      * now rewrite Hget.
      * rewrite Hget. now apply IH.
Qed.

(** A plain key is looked up as a path of one segment. *)
Lemma walk_plain_key (event : dict) (key : string) :
  str_contains "." key = false ->
  walk_parts (str_split "." key) (VDict event) = dict_get event key.
Proof.
  intros Hplain. rewrite (str_split_plain _ Hplain). simpl.
  now destruct (dict_get event key).
Qed.

Lemma no_dots_iff (segments : list string) :
  Forall (fun segment => ~ occurs_in "." segment) segments <->
  Forall (fun segment => str_contains "." segment = false) segments.
Proof.
  split; intros H; induction H; constructor; auto.
  - destruct (str_contains "." x) eqn:Hc; [|reflexivity].
    apply str_contains_occurs in Hc. contradiction.
  - intros Ho. apply str_contains_occurs in Ho. congruence.
Qed.

Lemma resolves_walk (event : dict) (key : string) (x : value) :
  resolves event key x <->
  walk_parts (str_split "." key) (VDict event) = Some x.
Proof.
  unfold resolves. split.
  - intros (segments & Hne & Hjoin & Hdots & Hdesc). subst key.
    apply no_dots_iff in Hdots.
    rewrite (str_split_join _ Hne Hdots). now apply walk_descends.
  - intros Hwalk. exists (str_split "." key). repeat split.
    + apply str_split_nonempty.
    + apply str_join_split.
    + apply no_dots_iff, str_split_no_dots.
    + now apply walk_descends.
Qed.

Lemma filter_loop_step (event : dict) (key : string) (v : value)
      (rest : dict) :
  filter_loop event ((key, v) :: rest) =
  match walk_parts (str_split "." key) (VDict event) with
  | Some x => py_eq x v && filter_loop event rest
  | None => false
  end.
Proof.
  simpl. destruct (str_contains "." key) eqn:Hdot.
  - destruct (walk_parts _ _) as [x|]; [|reflexivity].
    unfold py_ne. now destruct (py_eq x v).
  - rewrite (walk_plain_key _ _ Hdot).
    destruct (dict_get event key) as [x|]; [|reflexivity].
    unfold py_ne. now destruct (py_eq x v).
Qed.

Lemma filter_loop_entries (event : dict) (filter : dict) :
  filter_loop event filter = true <-> Forall (entry_holds event) filter.
Proof.
  induction filter as [|[key v] rest IH].
  - split; [constructor|reflexivity].
  - rewrite filter_loop_step. split.
    + destruct (walk_parts _ _) as [x|] eqn:Hwalk; [|discriminate].
      intros H. apply andb_true_iff in H as [Heq Hrest].
      constructor; [|now apply IH].
      exists x. split; [now apply resolves_walk|exact Heq].
    + intros H. inversion H as [|? ? (x & Hres & Heq) Hrest]; subst.
      apply resolves_walk in Hres. simpl in Hres, Heq.
      rewrite Hres, Heq. now apply IH.
Qed.

Lemma type_value_string (event : dict) (s : string) :
  type_string event = Some s ->
  dict_get_default event "type" (VStr "") = VStr s.
Proof.
  unfold type_string, dict_get_default.
  destruct (dict_get event "type") as [[]|]; congruence.
Qed.

Lemma type_value_other (event : dict) :
  type_string event = None ->
  forall s, dict_get_default event "type" (VStr "") <> VStr s.
Proof.
  unfold type_string, dict_get_default.
  destruct (dict_get event "type") as [[]|]; congruence.
Qed.

(** On a type string, the category gate rejects when none of the
    designated substrings occurs. *)
Lemma type_rejects_string (c : EventType) (s : string) :
  type_rejects c (VStr s) =
  Ok (inspects_type c &&
      negb (existsb (fun sub => str_contains sub (str_lower s))
                    (designated c))).
Proof.
  destruct c; cbn [type_rejects and_then not_in_lower rbind inspects_type
                   designated existsb andb];
    repeat match goal with
           | |- context [str_contains ?a ?b] => destruct (str_contains a b)
           end; reflexivity.
Qed.

Lemma type_rejects_other (c : EventType) (v : value) :
  (forall s, v <> VStr s) ->
  inspects_type c = true ->
  type_rejects c v = Raise (no_attribute v "lower").
Proof.
  intros Hv Hc.
  destruct v; try (now elim (Hv s)); destruct c; try discriminate; reflexivity.
Qed.

Lemma type_rejects_free (c : EventType) (v : value) :
  inspects_type c = false -> type_rejects c v = Ok false.
Proof. destruct c; try discriminate; reflexivity. Qed.

Lemma existsb_occurs (subs : list string) (s : string) :
  existsb (fun sub => str_contains sub s) subs = true <->
  exists sub, In sub subs /\ occurs_in sub s.
Proof.
  rewrite existsb_exists.
  split; intros (sub & Hin & H); exists sub; split; auto;
    now apply str_contains_occurs.
Qed.

Lemma type_rejects_predicate (c : EventType) (event : dict) :
  type_rejects c (dict_get_default event "type" (VStr "")) = Ok false <->
  category_predicate c event.
Proof.
  unfold category_predicate.
  destruct (inspects_type c) eqn:Hc.
  2:{ rewrite (type_rejects_free _ _ Hc). split; [discriminate|reflexivity]. }
  destruct (type_string event) as [s|] eqn:Hs.
  - rewrite (type_value_string _ _ Hs), type_rejects_string, Hc. simpl.
    split.
    + intros [= H]. apply negb_false_iff, existsb_occurs in H.
      destruct H as (sub & Hin & Ho). intros _. now exists s, sub.
    + intros H. destruct (H eq_refl) as (s' & sub & [= <-] & Hin & Ho).
      f_equal. apply negb_false_iff, existsb_occurs. now exists sub.
  - rewrite (type_rejects_other c _ (type_value_other _ Hs) Hc).
    split; [discriminate|].
    intros H. destruct (H eq_refl) as (s' & sub & Habs & _). discriminate.
Qed.

Lemma event_matches_true (event : dict) (c : EventType) (filter : dict) :
  _event_matches event c filter = Ok true <->
  type_rejects c (dict_get_default event "type" (VStr "")) = Ok false /\
  filter_loop event filter = true.
Proof.
  unfold _event_matches.
  destruct (type_rejects c _) as [[|]|e]; simpl; split;
    try discriminate; try (intros [H _]; discriminate).
  - intros [= H]. now split.
  - intros [_ ->]. reflexivity.
Qed.

End Matcher.

Section MatcherClaims.

Lemma in_filter_holds (event : dict) (filter : dict) (key : string)
      (v : value) :
  In (key, v) filter ->
  filter_loop event filter = true ->
  exists x, walk_parts (str_split "." key) (VDict event) = Some x /\
            py_eq x v = true.
Proof.
  intros Hin Hloop. apply filter_loop_entries in Hloop.
  rewrite Forall_forall in Hloop.
  destruct (Hloop _ Hin) as (x & Hres & Heq).
  exists x. split; [now apply resolves_walk|exact Heq].
Qed.

(** C2.  The matcher returns true exactly when the category predicate holds
    on the event and every entry of the filter map names, by its path of
    dot-separated segments (one segment for a plain key), a value of the
    event that is equal to the expected one.  An absent or empty filter map
    leaves the category predicate alone.  An entry whose path stops early,
    on a missing segment or on a value that is not a dict, makes the match
    fail. *)
Theorem event_matches_iff_spec (event : dict) (c : EventType)
        (filter : dict) :
  (_event_matches event c filter = Ok true <-> matches_spec event c filter)
  /\
  (forall given : option dict,
      given = None \/ given = Some [] ->
      (_event_matches event c (dict_or_empty given) = Ok true <->
       category_predicate c event))
  /\
  (forall key expected segments,
      In (key, expected) filter ->
      segments <> [] ->
      str_join "." segments = key ->
      Forall (fun segment => ~ occurs_in "." segment) segments ->
      blocked (VDict event) segments ->
      _event_matches event c filter <> Ok true /\
      (type_absent_or_string event ->
       _event_matches event c filter = Ok false)).
Proof.
  split; [|split].
  - unfold matches_spec.
    now rewrite event_matches_true, type_rejects_predicate,
      filter_loop_entries.
  - intros given Hgiven.
    assert (dict_or_empty given = []) as -> by (now destruct Hgiven; subst).
    rewrite event_matches_true, type_rejects_predicate. simpl. tauto.
  - intros key expected segments Hin Hne Hjoin Hdots Hblocked.
    assert (filter_loop event filter = false) as Hloop.
    { destruct (filter_loop event filter) eqn:Hloop; [|reflexivity].
      destruct (in_filter_holds _ _ _ _ Hin Hloop) as (x & Hwalk & _).
      subst key. apply no_dots_iff in Hdots.
      rewrite (str_split_join _ Hne Hdots) in Hwalk.
      apply walk_blocked in Hblocked. congruence. }
    split.
    + rewrite event_matches_true, Hloop. now intros [_ ?].
    + intros Htype. unfold _event_matches.
      assert (exists s, dict_get_default event "type" (VStr "") = VStr s)
        as [s ->].
      { unfold dict_get_default.
        destruct Htype as [->|[s ->]]; eexists; reflexivity. }
      rewrite type_rejects_string, Hloop. simpl.
      now destruct (_ && _).
Qed.

Lemma event_matches_iff_spec_witness :
  (_event_matches [("type", VStr "nft_transfer")] NFT_TRANSFER
                  (dict_or_empty None) = Ok true <->
   category_predicate NFT_TRANSFER [("type", VStr "nft_transfer")])
  /\
  _event_matches
    [("type", VStr "test_event");
     ("data", VDict [("nested", VDict [("value", VInt 100)])])]
    CUSTOM [("data.nested.missing", VInt 100)] = Ok false.
Proof.
  split.
  - apply (proj1 (proj2 (event_matches_iff_spec
                           [("type", VStr "nft_transfer")] NFT_TRANSFER []))).
    left. reflexivity.
  - apply (proj2 (proj2 (event_matches_iff_spec
                           [("type", VStr "test_event");
                            ("data",
                             VDict [("nested",
                                     VDict [("value", VInt 100)])])]
                           CUSTOM [("data.nested.missing", VInt 100)]))
             "data.nested.missing" (VInt 100) ["data"; "nested"; "missing"]).
    + left. reflexivity.
    + discriminate.
    + reflexivity.
    + apply no_dots_iff. repeat constructor.
    + apply walk_blocked. reflexivity.
    + right. exists "test_event". reflexivity.
Defined.

(** C5.  The event [{"type": "nft_transfer"}] with an empty filter map
    matches the asset-transfer category; the code also returns true for the
    fungible-transfer category, because the type string contains
    "transfer". *)
Theorem nft_transfer_event_matches_token_transfer :
  _event_matches [("type", VStr "nft_transfer")] NFT_TRANSFER [] = Ok true /\
  _event_matches [("type", VStr "nft_transfer")] TOKEN_TRANSFER [] = Ok true.
Proof. split; reflexivity. Qed.

Lemma py_eq_str (x : value) (s : string) :
  py_eq x (VStr s) = true -> x = VStr s.
Proof.
  destruct x; simpl; try discriminate.
  intros H. apply String.eqb_eq in H. now subst.
Qed.

Lemma py_eq_none (x : value) : py_eq x VNone = true -> x = VNone.
Proof. destruct x; simpl; try discriminate. reflexivity. Qed.

Lemma py_eq_int (x : value) (n : Z) :
  py_eq x (VInt n) = true ->
  x = VInt n \/ exists b, x = VBool b /\ Z_of_bool b = n.
Proof.
  destruct x; simpl; try discriminate; intros H; apply Z.eqb_eq in H.
  - right. now exists b.
  - left. now subst.
Qed.

Lemma py_eq_bool (x : value) (b : bool) :
  py_eq x (VBool b) = true -> x = VBool b \/ x = VInt (Z_of_bool b).
Proof.
  destruct x; simpl; try discriminate; intros H.
  - left. apply Bool.eqb_prop in H. now subst.
  - right. apply Z.eqb_eq in H. now subst.
Qed.

(** C6, as stated, fails: the leaf [True] reached by the dotted key
    ["data.flag"] matches the expected value [1], of another type. *)
Lemma bool_leaf_matches_int_filter :
  let event := [("data", VDict [("flag", VBool true)])] in
  walk_parts (str_split "." "data.flag") (VDict event) = Some (VBool true) /\
  VBool true <> VInt 1 /\
  type_name (VBool true) <> type_name (VInt 1) /\
  _event_matches event CUSTOM [("data.flag", VInt 1)] = Ok true.
Proof. repeat split; (reflexivity || discriminate). Qed.

(** C6, amended.  For every filter entry with a dotted key, when the match
    succeeds the value reached at the end of the path is equal to the
    expected value under [==], which does not ask for the same type.  When
    the expected value is a string or [None] the value reached is the
    expected value itself.  When it is an int or a bool the value reached is
    equal to it as a number, whatever its type, and is not a string, [None],
    a list or a dict. *)
Theorem dotted_leaf_equal_under_eq (event : dict) (c : EventType)
        (filter : dict) (key : string) (expected : value) :
  In (key, expected) filter ->
  occurs_in "." key ->
  _event_matches event c filter = Ok true ->
  exists leaf,
    resolves event key leaf /\
    py_eq leaf expected = true /\
    match expected with
    | VNone | VStr _ => leaf = expected
    | VInt _ | VBool _ =>
        leaf <> VNone /\
        (forall s, leaf <> VStr s) /\
        (forall l, leaf <> VList l) /\
        (forall d, leaf <> VDict d)
    | VList _ | VDict _ => True
    end.
Proof.
  intros Hin _ Hmatch. apply event_matches_true in Hmatch as [_ Hloop].
  destruct (in_filter_holds _ _ _ _ Hin Hloop) as (leaf & Hwalk & Heq).
  exists leaf. split; [now apply resolves_walk|]. split; [exact Heq|].
  destruct expected; auto using py_eq_none, py_eq_str;
    destruct leaf; try discriminate Heq; repeat split; intros; discriminate.
Qed.

Lemma dotted_leaf_equal_under_eq_witness :
  exists leaf,
    resolves [("data", VDict [("nested", VDict [("value", VInt 100)])])]
             "data.nested.value" leaf /\
    py_eq leaf (VInt 100) = true /\
    leaf <> VNone /\
    (forall s, leaf <> VStr s) /\
    (forall l, leaf <> VList l) /\
    (forall d, leaf <> VDict d).
Proof.
  apply (dotted_leaf_equal_under_eq
           [("data", VDict [("nested", VDict [("value", VInt 100)])])]
           CUSTOM [("data.nested.value", VInt 100)]
           "data.nested.value" (VInt 100)).
  - left. reflexivity.
  - exists "data", "nested.value". reflexivity.
  - reflexivity.
Defined.

(** C10.  The matcher returns a boolean for every event whose type field is
    absent or holds a string, whatever the category and the filter map.
    When the type field holds a value that is not a string and the category
    inspects the type string, the matcher raises instead: there is such an
    event, and it is so for every one of them. *)
Theorem event_matches_total_on_string_types :
  (forall event c filter,
      type_absent_or_string event ->
      exists b, _event_matches event c filter = Ok b)
  /\
  (exists event c v,
      dict_get event "type" = Some v /\
      (forall s, v <> VStr s) /\
      inspects_type c = true /\
      forall filter, exists e, _event_matches event c filter = Raise e)
  /\
  (forall event c v filter,
      dict_get event "type" = Some v ->
      (forall s, v <> VStr s) ->
      inspects_type c = true ->
      _event_matches event c filter = Raise (no_attribute v "lower")).
Proof.
  assert (forall event c v filter,
             dict_get event "type" = Some v ->
             (forall s, v <> VStr s) ->
             inspects_type c = true ->
             _event_matches event c filter = Raise (no_attribute v "lower"))
    as Hraise.
  { intros event c v filter Hget Hv Hc. unfold _event_matches, dict_get_default.
    rewrite Hget, (type_rejects_other c v Hv Hc). reflexivity. }
  split; [|split].
  - intros event c filter Htype. unfold _event_matches, dict_get_default.
    destruct Htype as [->|[s ->]]; rewrite type_rejects_string; simpl;
      destruct (_ && _); eexists; reflexivity.
  - exists [("type", VInt 7)], NFT_TRANSFER, (VInt 7).
    repeat split; try discriminate.
    intros filter. eexists. apply Hraise; (reflexivity || discriminate).
  - exact Hraise.
Qed.

Lemma event_matches_total_on_string_types_witness :
  (exists b,
      _event_matches [("type", VStr "Checkpoint")] CHECKPOINT
                     [("type", VStr "Checkpoint")] = Ok b)
  /\
  _event_matches [("type", VInt 7)] EPOCH_CHANGE [] =
  Raise (no_attribute (VInt 7) "lower").
Proof.
  split.
  - apply (proj1 event_matches_total_on_string_types).
    right. exists "Checkpoint". reflexivity.
  - apply (proj2 (proj2 event_matches_total_on_string_types)
             [("type", VInt 7)] EPOCH_CHANGE (VInt 7) []).
    + reflexivity.
    + discriminate.
    + reflexivity.
Defined.

End MatcherClaims.

(** ** The RPC transport *)

Section Transport.

Variable E : Env.
Variables (method : string) (params : list value).

Lemma add_trace_nil (w : world) : add_trace w [] = w.
Proof. destruct w. unfold add_trace. simpl. now rewrite app_nil_r. Qed.

Lemma add_trace_app (w : world) (t u : list effect) :
  add_trace (add_trace w t) u = add_trace w (t ++ u).
Proof. unfold add_trace. simpl. now rewrite app_assoc. Qed.

Lemma posts_add_trace (w : world) (t : list effect) :
  posts (add_trace w t) = (posts w + length (filter is_post t))%nat.
Proof. unfold posts, add_trace. simpl. now rewrite filter_app, length_app. Qed.

Lemma posts_failed_attempts (url : string) (k : nat) :
  length (filter is_post (failed_attempts E url method params k)) = k.
Proof. induction k; simpl; congruence. Qed.

(** One pass of the loop on a network failure that leaves attempts. *)
Lemma rpc_loop_retry (fuel rc : nat) (w : world) (e : string) :
  (rc + 1 < MAX_RETRIES E)%nat ->
  network_failure (node E (posts w) method params) = Some e ->
  rpc_loop E (S fuel) rc method params w =
  rpc_loop E fuel (rc + 1) method params
           (add_trace w (failed_attempts E (rpc_url (self w))
                                         method params 1)).
Proof.
  intros Hrc Hfail. cbn [rpc_loop].
  assert ((rc <? MAX_RETRIES E)%nat = true) as -> by (apply Nat.ltb_lt; lia).
  assert ((MAX_RETRIES E <=? rc + 1)%nat = false) as Hle
      by (apply Nat.leb_gt; lia).
  unfold bind at 1, requests_post.
  destruct (node E (posts w) method params) as [x|x|r]; try discriminate;
    rewrite Hle; unfold bind, emit; rewrite add_trace_app; reflexivity.
Qed.

(** [k] failed attempts in a row, with attempts left after them. *)
Lemma rpc_loop_failures (k : nat) :
  forall (fuel rc : nat) (w : world),
    (rc + k < MAX_RETRIES E)%nat ->
    (forall i, (i < k)%nat ->
               network_failure (node E (posts w + i) method params) <> None) ->
    rpc_loop E (k + fuel) rc method params w =
    rpc_loop E fuel (rc + k) method params
             (add_trace w (failed_attempts E (rpc_url (self w))
                                           method params k)).
Proof.
  induction k as [|k IH]; intros fuel rc w Hrc Hfail.
  - simpl. now rewrite add_trace_nil, Nat.add_0_r.
  - destruct (network_failure (node E (posts w) method params)) as [e|] eqn:He.
    2:{ specialize (Hfail 0%nat ltac:(lia)).
        rewrite Nat.add_0_r in Hfail. contradiction. }
    change (S k + fuel)%nat with (S (k + fuel)).
    rewrite (rpc_loop_retry _ _ _ e) by (assumption || lia).
    rewrite IH.
    + rewrite add_trace_app. f_equal. lia.
    + lia.
    + intros i Hi. rewrite posts_add_trace. simpl.
      replace (posts w + 1 + i)%nat with (posts w + S i)%nat by lia.
      apply Hfail. lia.
Qed.

(** The last pass: a result, a remote error, or the last failure. *)
Lemma rpc_loop_result (fuel rc : nat) (w : world) (r : dict) (v : value) :
  (rc < MAX_RETRIES E)%nat ->
  node E (posts w) method params = Body r ->
  dict_get r "error" = None ->
  dict_get r "result" = Some v ->
  rpc_loop E (S fuel) rc method params w =
  (Ok v, add_trace w [Post (rpc_url (self w)) method params]).
Proof.
  intros Hrc Hnode Herr Hres. cbn [rpc_loop].
  apply Nat.ltb_lt in Hrc. rewrite Hrc.
  unfold bind, requests_post. rewrite Hnode, Herr, Hres. reflexivity.
Qed.

Lemma rpc_loop_remote_error (fuel rc : nat) (w : world) (r err : dict) :
  (rc < MAX_RETRIES E)%nat ->
  node E (posts w) method params = Body r ->
  dict_get r "error" = Some (VDict err) ->
  rpc_loop E (S fuel) rc method params w =
  (Raise (Exn BlockchainError
              ("RPC error: "
                 ++ py_str E (dict_get_default
                                err "message"
                                (VStr (py_str E (VDict err)))))),
   add_trace w [Post (rpc_url (self w)) method params]).
Proof.
  intros Hrc Hnode Herr. cbn [rpc_loop].
  apply Nat.ltb_lt in Hrc. rewrite Hrc.
  unfold bind, requests_post. rewrite Hnode, Herr. reflexivity.
Qed.

Lemma rpc_loop_exhausted (fuel rc : nat) (w : world) (e : string) :
  (rc + 1 = MAX_RETRIES E)%nat ->
  network_failure (node E (posts w) method params) = Some e ->
  rpc_loop E (S fuel) rc method params w =
  (Raise (Exn BlockchainError
              ("Failed to make RPC call after "
                 ++ str_of_nat (MAX_RETRIES E) ++ " retries: " ++ e)),
   add_trace w [Post (rpc_url (self w)) method params]).
Proof.
  intros Hrc Hfail. cbn [rpc_loop].
  assert ((rc <? MAX_RETRIES E)%nat = true) as -> by (apply Nat.ltb_lt; lia).
  assert ((MAX_RETRIES E <=? rc + 1)%nat = true) as Hle
      by (apply Nat.leb_le; lia).
  unfold bind, requests_post.
  destruct (node E (posts w) method params) as [x|x|r]; try discriminate;
    rewrite Hle; injection Hfail as ->; reflexivity.
Qed.

Lemma bind_ext {A B} (c : M A) (k k' : A -> M B) (w : world) :
  (forall a w', k a w' = k' a w') -> bind c k w = bind c k' w.
Proof. intros H. unfold bind. destruct (c w) as [[a|e] w']; auto. Qed.

(** The fuel [_make_rpc_call] gives is never used up: more fuel changes
    nothing. *)
Lemma rpc_loop_fuel (fuel : nat) :
  forall (rc extra : nat) (w : world),
    (MAX_RETRIES E - rc < fuel)%nat ->
    rpc_loop E (fuel + extra) rc method params w =
    rpc_loop E fuel rc method params w.
Proof.
  induction fuel as [|fuel IH]; intros rc extra w Hfuel; [lia|].
  cbn [rpc_loop Nat.add].
  destruct (rc <? MAX_RETRIES E)%nat eqn:Hrc; [|reflexivity].
  apply Nat.ltb_lt in Hrc.
  apply bind_ext. intros [x|x|r] w'; [| |reflexivity];
    (destruct (MAX_RETRIES E <=? rc + 1)%nat; [reflexivity|]);
    apply bind_ext; intros _ w''; apply IH; lia.
Qed.

(** The loop never makes more attempts than the budget leaves. *)
Lemma rpc_loop_attempts_bound (fuel : nat) :
  forall (rc : nat) (w : world),
    (posts (snd (rpc_loop E fuel rc method params w))
     <= posts w + (MAX_RETRIES E - rc))%nat.
Proof.
  induction fuel as [|fuel IH]; intros rc w; [simpl; lia|].
  cbn [rpc_loop].
  destruct (rc <? MAX_RETRIES E)%nat eqn:Hrc; [|simpl; lia].
  apply Nat.ltb_lt in Hrc.
  unfold bind at 1, requests_post.
  assert (posts (add_trace w [Post (rpc_url (self w)) method params])
          = posts w + 1)%nat as Hposts by now rewrite posts_add_trace.
  destruct (node E (posts w) method params) as [x|x|r].
  1,2: destruct (MAX_RETRIES E <=? rc + 1)%nat;
    [unfold raise; simpl snd; lia|];
    unfold bind, emit; rewrite add_trace_app;
    etransitivity; [apply IH|]; rewrite posts_add_trace; simpl; lia.
  destruct (dict_get r "error") as [err|].
  - unfold bind, lift, raise.
    destruct (error_message E err); simpl snd; lia.
  - destruct (dict_get r "result"); unfold ret, raise; simpl snd; lia.
Qed.

End Transport.

Section TransportClaims.

Variable E : Env.
Variables (method : string) (params : list value).

Lemma posts_after_failures (w : world) (k : nat) :
  posts (add_trace w (failed_attempts E (rpc_url (self w)) method params k))
  = (posts w + k)%nat.
Proof. now rewrite posts_add_trace, posts_failed_attempts. Qed.

Lemma posts_after_last (w : world) (k : nat) :
  posts (add_trace w (failed_attempts E (rpc_url (self w)) method params k
                        ++ [Post (rpc_url (self w)) method params]))
  = (posts w + k + 1)%nat.
Proof.
  rewrite posts_add_trace, filter_app, length_app, posts_failed_attempts.
  simpl. lia.
Qed.

(** C3.  A call is retried on a network failure, with the fixed delay
    between attempts.  When the first two attempts fail and the third one
    answers with a result (the budget being three or more), the call
    returns that result after exactly three attempts.  When every attempt
    fails, the call raises the transport error that names the budget and
    the last failure, after exactly as many attempts as the budget.  No
    call makes more attempts than the budget. *)
Theorem make_rpc_call_retries (w : world) :
  let url := rpc_url (self w) in
  (forall r v,
      (3 <= MAX_RETRIES E)%nat ->
      network_failure (node E (posts w) method params) <> None ->
      network_failure (node E (posts w + 1) method params) <> None ->
      node E (posts w + 2) method params = Body r ->
      dict_get r "error" = None ->
      dict_get r "result" = Some v ->
      let w' := add_trace w [Post url method params; Sleep (RETRY_DELAY E);
                             Post url method params; Sleep (RETRY_DELAY E);
                             Post url method params] in
      _make_rpc_call E method params w = (Ok v, w') /\
      posts w' = (posts w + 3)%nat)
  /\
  (forall last,
      (1 <= MAX_RETRIES E)%nat ->
      (forall i, (i < MAX_RETRIES E)%nat ->
                 network_failure (node E (posts w + i) method params)
                 <> None) ->
      network_failure
        (node E (posts w + (MAX_RETRIES E - 1)) method params) = Some last ->
      let w' := add_trace w (failed_attempts E url method params
                                             (MAX_RETRIES E - 1)
                               ++ [Post url method params]) in
      _make_rpc_call E method params w =
      (Raise (Exn BlockchainError
                  ("Failed to make RPC call after "
                     ++ str_of_nat (MAX_RETRIES E) ++ " retries: " ++ last)),
       w') /\
      posts w' = (posts w + MAX_RETRIES E)%nat)
  /\
  (posts (snd (_make_rpc_call E method params w))
   <= posts w + MAX_RETRIES E)%nat.
Proof.
  cbv zeta. unfold _make_rpc_call. split; [|split].
  - intros r v Hmax Hf0 Hf1 Hnode Herr Hres. split.
    + replace (S (MAX_RETRIES E)) with (2 + S (MAX_RETRIES E - 2))%nat by lia.
      rewrite rpc_loop_failures.
      * rewrite (rpc_loop_result E method params _ _ _ r v);
          [now rewrite add_trace_app|simpl; lia| |assumption|assumption].
        now rewrite posts_after_failures.
      * simpl. lia.
      * intros [|[|i]] Hi; [now rewrite Nat.add_0_r|assumption|lia].
    + now rewrite posts_add_trace.
  - intros last Hmax Hfail Hlast. split.
    + replace (S (MAX_RETRIES E)) with (MAX_RETRIES E - 1 + 2)%nat by lia.
      rewrite rpc_loop_failures.
      * rewrite (rpc_loop_exhausted E method params _ _ _ last);
          [now rewrite add_trace_app|simpl; lia|].
        now rewrite posts_after_failures.
      * simpl. lia.
      * intros i Hi. apply Hfail. lia.
    + rewrite posts_after_last. lia.
  - etransitivity; [apply rpc_loop_attempts_bound|]. lia.
Qed.

(** C4.  A response that carries an error object ends the call at once,
    however many attempts the budget leaves: after [k] failed attempts and
    that response, the call has made [k + 1] attempts and raises the RPC
    error with the message of the error object (its text when the message
    is a string). *)
Theorem make_rpc_call_remote_error_not_retried (w : world) (k : nat)
        (r err : dict) :
  (k < MAX_RETRIES E)%nat ->
  (forall i, (i < k)%nat ->
             network_failure (node E (posts w + i) method params) <> None) ->
  node E (posts w + k) method params = Body r ->
  dict_get r "error" = Some (VDict err) ->
  let url := rpc_url (self w) in
  let message :=
    dict_get_default err "message" (VStr (py_str E (VDict err))) in
  let w' := add_trace w (failed_attempts E url method params k
                           ++ [Post url method params]) in
  _make_rpc_call E method params w =
  (Raise (Exn BlockchainError ("RPC error: " ++ py_str E message)), w') /\
  posts w' = (posts w + k + 1)%nat /\
  (forall text,
      dict_get err "message" = Some (VStr text) -> py_str E message = text).
Proof.
  intros Hk Hfail Hnode Herr. cbv zeta. split; [|split].
  - unfold _make_rpc_call.
    replace (S (MAX_RETRIES E)) with (k + S (MAX_RETRIES E - k))%nat by lia.
    rewrite rpc_loop_failures; [|simpl; lia|assumption].
    rewrite (rpc_loop_remote_error E method params _ _ _ r err);
      [now rewrite add_trace_app|simpl; lia| |assumption].
    now rewrite posts_after_failures.
  - apply posts_after_last.
  - intros text Hmsg. unfold dict_get_default. now rewrite Hmsg.
Qed.

End TransportClaims.

Lemma make_rpc_call_retries_witness :
  (let E := shipped (scripted [RequestException "refused";
                               JSONDecodeError "Expecting value";
                               Body [("result", VInt 7)]]
                              (RequestException "refused")) in
   _make_rpc_call E "m" [] (fresh E None) =
   (Ok (VInt 7),
    add_trace (fresh E None)
              [Post (SUI_RPC_URL E) "m" []; Sleep 2;
               Post (SUI_RPC_URL E) "m" []; Sleep 2;
               Post (SUI_RPC_URL E) "m" []]))
  /\
  (let F := shipped (scripted [] (RequestException "refused")) in
   _make_rpc_call F "m" [] (fresh F None) =
   (Raise (Exn BlockchainError
               "Failed to make RPC call after 3 retries: refused"),
    add_trace (fresh F None)
              [Post (SUI_RPC_URL F) "m" []; Sleep 2;
               Post (SUI_RPC_URL F) "m" []; Sleep 2;
               Post (SUI_RPC_URL F) "m" []])).
Proof.
  split.
  - intros E.
    apply (proj1 (make_rpc_call_retries E "m" [] (fresh E None))
                 [("result", VInt 7)] (VInt 7)).
    + unfold E. simpl. unfold config.MAX_RETRIES. lia.
    + discriminate.
    + discriminate.
    + reflexivity.
    + reflexivity.
    + reflexivity.
  - intros F.
    apply (proj1 (proj2 (make_rpc_call_retries F "m" [] (fresh F None)))
                 "refused").
    + unfold F. simpl. unfold config.MAX_RETRIES. lia.
    + intros i _. unfold F. simpl. unfold scripted.
      destruct i as [|[|[|i]]]; discriminate.
    + reflexivity.
Defined.

Lemma make_rpc_call_remote_error_not_retried_witness :
  let E := shipped (scripted [RequestException "refused";
                              Body [("error",
                                     VDict [("code", VInt (-32000));
                                            ("message", VStr "Test error")])]]
                             (Body [("result", VInt 7)])) in
  _make_rpc_call E "m" [] (fresh E None) =
  (Raise (Exn BlockchainError "RPC error: Test error"),
   add_trace (fresh E None)
             [Post (SUI_RPC_URL E) "m" []; Sleep 2;
              Post (SUI_RPC_URL E) "m" []]).
Proof.
  intros E.
  apply (make_rpc_call_remote_error_not_retried
           E "m" [] (fresh E None) 1
           [("error", VDict [("code", VInt (-32000));
                             ("message", VStr "Test error")])]
           [("code", VInt (-32000)); ("message", VStr "Test error")]).
  - unfold E. simpl. unfold config.MAX_RETRIES. lia.
  - intros i Hi. assert (i = 0)%nat as -> by lia. discriminate.
  - reflexivity.
  - reflexivity.
Defined.

(** ** The transaction gateway *)

Section Gateway.

Lemma str_truthy_false (s : string) : str_truthy s = false <-> s = EmptyString.
Proof. destruct s; simpl; split; congruence. Qed.

(** C8.  Without a signing credential [execute_transaction] raises the
    domain error at once and leaves the world as it was: no RPC attempt, no
    sleep, no change of the client.  With a credential it returns a result
    instead.  The client has no credential exactly when none (or an empty
    one) was given to the constructor and the environment sets none. *)
Theorem execute_transaction_needs_private_key (E : Env) (tx_data : dict)
        (now : Z) (now_iso : string) (w : world) :
  (str_truthy (private_key (self w)) = false ->
   execute_transaction tx_data now now_iso w =
   (Raise (Exn BlockchainError
               "Private key not set. Cannot execute transactions."), w))
  /\
  (str_truthy (private_key (self w)) = true ->
   exists v, execute_transaction tx_data now now_iso w = (Ok v, w))
  /\
  (forall url key,
      str_truthy (private_key (__init__ E url key)) = false <->
      (key = None \/ key = Some EmptyString) /\
      SUI_PRIVATE_KEY E = EmptyString).
Proof.
  split; [|split].
  - intros Hkey. unfold execute_transaction, bind, get_self.
    now rewrite Hkey.
  - intros Hkey. unfold execute_transaction, bind, get_self.
    rewrite Hkey. eexists. reflexivity.
  - intros url key. rewrite str_truthy_false. unfold __init__. simpl.
    destruct key as [[|c k]|]; simpl; split.
    + intros H. split; [now right|exact H].
    + now intros [_ H].
    + discriminate.
    + intros [[H|H] _]; discriminate.
    + intros H. split; [now left|exact H].
    + now intros [_ H].
Qed.

Lemma execute_transaction_needs_private_key_witness :
  let E := shipped (scripted [] (RequestException "refused")) in
  execute_transaction [("kind", VStr "transfer")] 1700000000 "2023-11-14"
                      (fresh E None) =
  (Raise (Exn BlockchainError
              "Private key not set. Cannot execute transactions."),
   fresh E None)
  /\
  exists v,
    execute_transaction [("kind", VStr "transfer")] 1700000000 "2023-11-14"
                        (fresh E (Some "test_private_key")) =
    (Ok v, fresh E (Some "test_private_key")).
Proof.
  intros E. split.
  - apply (proj1 (execute_transaction_needs_private_key
                    E [("kind", VStr "transfer")] 1700000000 "2023-11-14"
                    (fresh E None))).
    reflexivity.
  - apply (proj1 (proj2 (execute_transaction_needs_private_key
                           E [("kind", VStr "transfer")] 1700000000
                           "2023-11-14" (fresh E (Some "test_private_key"))))).
    reflexivity.
Defined.

End Gateway.

(** ** Registering a handler by name *)

Section Registration.

Lemma EventType_getitem_some (name : string) (t : EventType) :
  EventType_getitem name = Some t <-> name = EventType_name t.
Proof.
  unfold EventType_getitem. split.
  - intros H. apply find_some in H as [_ H].
    apply String.eqb_eq in H. congruence.
  - intros ->. destruct t; reflexivity.
Qed.

Lemma EventType_getitem_none (name : string) :
  EventType_getitem name = None <-> forall t, name <> EventType_name t.
Proof.
  split.
  - intros H t Hname. apply EventType_getitem_some in Hname. congruence.
  - intros H. destruct (EventType_getitem name) as [t|] eqn:Hget;
      [|reflexivity].
    apply EventType_getitem_some in Hget. now elim (H t).
Qed.

Lemma dict_get_set (d : dict) (k : string) (v : value) :
  dict_get (dict_set d k v) k = Some v.
Proof.
  unfold dict_set. induction d as [|[k' v'] rest IH]; simpl.
  - now rewrite String.eqb_refl.
  - destruct (String.eqb k k') eqn:Hk; simpl; rewrite ?String.eqb_refl, ?Hk;
      [reflexivity|exact IH].
Qed.

Lemma in_dict_set (d : dict) (k : string) (v : value) :
  In (k, v) (dict_set d k v).
Proof.
  unfold dict_set. induction d as [|[k' v'] rest IH]; simpl.
  - now left.
  - destruct (String.eqb k k'); simpl; [now left|now right].
Qed.

Lemma matches_type_entry (event : dict) (filter : dict) (name : string) :
  In ("type", VStr name) filter ->
  _event_matches event CUSTOM filter = Ok true ->
  dict_get event "type" = Some (VStr name).
Proof.
  intros Hin Hmatch. apply event_matches_true in Hmatch as [_ Hloop].
  destruct (in_filter_holds _ _ _ _ Hin Hloop) as (x & Hwalk & Heq).
  rewrite walk_plain_key in Hwalk by reflexivity.
  apply py_eq_str in Heq. congruence.
Qed.

Lemma matches_only_type_entry (event : dict) (name : string) :
  _event_matches event CUSTOM [("type", VStr name)] = Ok true <->
  dict_get event "type" = Some (VStr name).
Proof.
  split.
  - apply matches_type_entry. now left.
  - intros Hget. unfold _event_matches. simpl.
    rewrite Hget. unfold py_ne. simpl. now rewrite String.eqb_refl.
Qed.

(** C9.  Registering a handler under a name whose upper-cased form is the
    name of a category subscribes it with that category and the filter as
    given.  Under any other name it subscribes it with the custom category
    and the given filter in which the key ["type"] is set to the name as
    written; such a subscription matches only events whose type is that
    name, and, when no filter was given, all of them. *)
Theorem register_event_handler_category (agent : WalrusAgent)
        (event_name : string) (handler : dict -> result unit)
        (given : option dict) (now : Z) (w : world) :
  let subscribed (t : EventType) (filter : dict) :=
    exists subscription_id,
      _register_event_handler agent event_name handler given now w =
      (Ok {| event_handlers :=
               assoc_set (event_handlers agent) event_name handler;
             event_subscriptions :=
               assoc_set (event_subscriptions agent) event_name
                         subscription_id |},
       {| self :=
            {| rpc_url := rpc_url (self w);
               private_key := private_key (self w);
               _event_listeners :=
                 assoc_set (_event_listeners (self w)) subscription_id
                           {| event_type := t;
                              callback := handler;
                              filter_params := filter |};
               _last_processed_checkpoint :=
                 _last_processed_checkpoint (self w) |};
          trace := trace w |}) in
  (forall t,
      str_upper event_name = EventType_name t ->
      subscribed t (dict_or_empty given))
  /\
  ((forall t, str_upper event_name <> EventType_name t) ->
   let filter := dict_set (dict_or_empty given) "type" (VStr event_name) in
   subscribed CUSTOM filter /\
   dict_get filter "type" = Some (VStr event_name) /\
   (forall event,
       _event_matches event CUSTOM filter = Ok true ->
       dict_get event "type" = Some (VStr event_name)) /\
   (given = None ->
    forall event,
      _event_matches event CUSTOM filter = Ok true <->
      dict_get event "type" = Some (VStr event_name))).
Proof.
  cbv zeta. split.
  - intros t Hname. apply EventType_getitem_some in Hname.
    unfold _register_event_handler, event_type_of_name. rewrite Hname.
    eexists. reflexivity.
  - intros Hname. apply EventType_getitem_none in Hname.
    split; [|split; [|split]].
    + unfold _register_event_handler, event_type_of_name. rewrite Hname.
      eexists. unfold dict_or_empty. destruct given; reflexivity.
    + apply dict_get_set.
    + intros event. apply matches_type_entry, in_dict_set.
    + intros ->. intros event. apply matches_only_type_entry.
Qed.

Lemma register_event_handler_category_witness :
  let E := shipped (scripted [] (RequestException "refused")) in
  let agent := {| event_handlers := []; event_subscriptions := [] |} in
  let handler := fun _ : dict => Ok tt in
  (exists subscription_id,
      fst (_register_event_handler agent "Nft_Transfer" handler None 17
                                   (fresh E None)) =
      Ok {| event_handlers := [("Nft_Transfer", handler)];
            event_subscriptions := [("Nft_Transfer", subscription_id)] |})
  /\
  forall event,
    _event_matches event CUSTOM [("type", VStr "price_update")] = Ok true <->
    dict_get event "type" = Some (VStr "price_update").
Proof.
  intros E agent handler. split.
  - destruct (proj1 (register_event_handler_category
                       agent "Nft_Transfer" handler None 17 (fresh E None))
                    NFT_TRANSFER eq_refl) as [subscription_id H].
    exists subscription_id. now rewrite H.
  - apply (proj2 (register_event_handler_category
                    agent "price_update" handler None 17 (fresh E None))).
    + intros t. destruct t; discriminate.
    + reflexivity.
Defined.

End Registration.

(** ** The polling loop *)

Section Frames.

Variable E : Env.

Lemma appends_ret {A} (P : effect -> Prop) (a : A) : appends P (ret a).
Proof. intros w. exists []. now rewrite add_trace_nil. Qed.

Lemma appends_raise {A} (P : effect -> Prop) (e : exn) :
  appends P (@raise A e).
Proof. intros w. exists []. now rewrite add_trace_nil. Qed.

Lemma appends_lift {A} (P : effect -> Prop) (r : result A) :
  appends P (lift r).
Proof. intros w. exists []. now rewrite add_trace_nil. Qed.

Lemma appends_get_self (P : effect -> Prop) : appends P get_self.
Proof. intros w. exists []. now rewrite add_trace_nil. Qed.

Lemma appends_emit (P : effect -> Prop) (e : effect) :
  P e -> appends P (emit e).
Proof. intros He w. exists [e]. split; [reflexivity|now constructor]. Qed.

Lemma appends_bind {A B} (P : effect -> Prop) (c : M A) (k : A -> M B) :
  appends P c -> (forall a, appends P (k a)) -> appends P (bind c k).
Proof.
  intros Hc Hk w. unfold bind.
  destruct (Hc w) as (t & Hw & Ht).
  destruct (c w) as [[a|e] w1]; simpl in Hw; subst w1.
  - destruct (Hk a (add_trace w t)) as (u & Hu & Hpu).
    exists (t ++ u). rewrite Hu, add_trace_app.
    split; [reflexivity|now apply Forall_app].
  - now exists t.
Qed.

Lemma appends_try_except {A} (P : effect -> Prop) (c : M A)
      (handler : exn -> M A) :
  appends P c -> (forall e, appends P (handler e)) ->
  appends P (try_except c handler).
Proof.
  intros Hc Hh w. unfold try_except.
  destruct (Hc w) as (t & Hw & Ht).
  destruct (c w) as [[a|e] w1]; simpl in Hw; subst w1.
  - now exists t.
  - destruct (Hh e (add_trace w t)) as (u & Hu & Hpu).
    exists (t ++ u). rewrite Hu, add_trace_app.
    split; [reflexivity|now apply Forall_app].
Qed.

Lemma appends_for_each {A} (P : effect -> Prop) (xs : list A)
      (body : A -> M unit) :
  (forall x, appends P (body x)) -> appends P (for_each xs body).
Proof.
  intros Hbody. induction xs as [|x xs IH]; simpl.
  - apply appends_ret.
  - apply appends_bind; [apply Hbody|intros _; exact IH].
Qed.

Lemma appends_weaken {A} (P Q : effect -> Prop) (c : M A) :
  (forall e, P e -> Q e) -> appends P c -> appends Q c.
Proof.
  intros HPQ Hc w. destruct (Hc w) as (t & Hw & Ht).
  exists t. split; [exact Hw|]. eapply Forall_impl; eassumption.
Qed.

Lemma appends_requests_post (method : string) (params : list value) :
  appends (rpc_effect method params) (requests_post E method params).
Proof.
  intros w. eexists. split; [reflexivity|].
  constructor; [|constructor]. left. eexists. reflexivity.
Qed.

Lemma appends_rpc_loop (method : string) (params : list value) (fuel : nat) :
  forall rc, appends (rpc_effect method params)
                     (rpc_loop E fuel rc method params).
Proof.
  induction fuel as [|fuel IH]; intros rc; cbn [rpc_loop].
  - apply appends_ret.
  - destruct (rc <? MAX_RETRIES E)%nat; [|apply appends_ret].
    apply appends_bind; [apply appends_requests_post|].
    intros [e|e|r].
    1,2: destruct (MAX_RETRIES E <=? rc + 1)%nat; [apply appends_raise|];
      (apply appends_bind; [|intros _; apply IH]);
      apply appends_emit; right; eexists; reflexivity.
    destruct (dict_get r "error").
    + apply appends_bind; [apply appends_lift|intros; apply appends_raise].
    + destruct (dict_get r "result"); [apply appends_ret|apply appends_raise].
Qed.

Lemma appends_make_rpc_call (method : string) (params : list value) :
  appends (rpc_effect method params) (_make_rpc_call E method params).
Proof. apply appends_rpc_loop. Qed.

Lemma appends_get_latest_checkpoint :
  appends (rpc_effect "sui_getLatestCheckpointSequenceNumber" [])
          (get_latest_checkpoint E).
Proof.
  apply appends_try_except.
  - apply appends_bind; [apply appends_make_rpc_call|].
    intros. apply appends_lift.
  - intros. apply appends_raise.
Qed.

Lemma appends_get_events_by_checkpoint (c : Z) :
  appends (rpc_effect "sui_getCheckpointEvents" [VInt c])
          (get_events_by_checkpoint E c).
Proof.
  apply appends_try_except.
  - apply appends_make_rpc_call.
  - intros. apply appends_ret.
Qed.

Lemma appends_offer (event : dict) (entry : string * listener) :
  appends is_call (offer event entry).
Proof.
  destruct entry as [subscription_id l]. unfold offer.
  apply appends_bind; [apply appends_lift|].
  intros [|]; [|apply appends_ret].
  apply appends_try_except; [|intros; apply appends_ret].
  apply appends_bind; [|intros; apply appends_lift].
  apply appends_emit. now exists subscription_id, event.
Qed.

Lemma appends_process_events (events : value) :
  appends is_call (_process_events events).
Proof.
  unfold _process_events.
  apply appends_bind; [apply appends_lift|].
  intros items. apply appends_for_each.
  intros [| | | | |d]; try apply appends_raise.
  apply appends_bind; [apply appends_get_self|].
  intros s. apply appends_for_each. intros entry. apply appends_offer.
Qed.

(** A fetch never raises: a failed call counts as no events. *)
Lemma get_events_by_checkpoint_returns (c : Z) (w : world) :
  exists events t,
    get_events_by_checkpoint E c w = (Ok events, add_trace w t) /\
    Forall (rpc_effect "sui_getCheckpointEvents" [VInt c]) t /\
    (_make_rpc_call E "sui_getCheckpointEvents" [VInt c] w =
     (Ok events, add_trace w t)
     \/
     events = VList [] /\
     exists e,
       _make_rpc_call E "sui_getCheckpointEvents" [VInt c] w =
       (Raise e, add_trace w t)).
Proof.
  destruct (appends_make_rpc_call "sui_getCheckpointEvents" [VInt c] w)
    as (t & Hw & Ht).
  unfold get_events_by_checkpoint, try_except.
  destruct (_make_rpc_call E "sui_getCheckpointEvents" [VInt c] w)
    as [[events|e] w1]; simpl in Hw; subst w1.
  - exists events, t. repeat split; try assumption. now left.
  - exists (VList []), t. repeat split; try assumption.
    right. split; [reflexivity|]. now exists e.
Qed.

Lemma process_events_empty (w : world) :
  _process_events (VList []) w = (Ok tt, w).
Proof. reflexivity. Qed.

End Frames.

Section Cursor.

Variable E : Env.

Lemma moved_same (w : world) : moved w (cursor w) [] = w.
Proof.
  destruct w as [[url key listeners c] t]. unfold moved, with_checkpoint.
  simpl. now rewrite app_nil_r.
Qed.

Lemma moved_moved (w : world) (k k' : option Z) (t t' : list effect) :
  moved (moved w k t) k' t' = moved w k' (t ++ t').
Proof. unfold moved, with_checkpoint. simpl. now rewrite app_assoc. Qed.

Lemma add_trace_moved (w : world) (k : option Z) (t u : list effect) :
  add_trace (moved w k t) u = moved w k (t ++ u).
Proof. unfold moved, add_trace. simpl. now rewrite app_assoc. Qed.

Lemma add_trace_as_moved (w : world) (t : list effect) :
  add_trace w t = moved w (cursor w) t.
Proof.
  destruct w as [[url key listeners c] tr]. reflexivity.
Qed.

Lemma set_checkpoint_moved (w : world) (k : option Z) :
  set_checkpoint k w = (Ok tt, moved w k []).
Proof.
  unfold set_checkpoint, bind, get_self, put_self, moved. simpl.
  now rewrite app_nil_r.
Qed.

Lemma observed_after_le (k k' : Z) (e : effect) :
  (k <= k')%Z -> observed_after k' e -> observed_after k e.
Proof. intros Hle H c Hc. specialize (H c Hc). lia. Qed.

Lemma observed_after_fetch (k c : Z) (e : effect) :
  (k < c)%Z ->
  rpc_effect "sui_getCheckpointEvents" [VInt c] e -> observed_after k e.
Proof.
  intros Hk [[url ->]|[d ->]] c' [url' H].
  - injection H as _ <-. exact Hk.
  - discriminate.
Qed.

Lemma observed_after_latest (k : Z) (e : effect) :
  rpc_effect "sui_getLatestCheckpointSequenceNumber" [] e ->
  observed_after k e.
Proof. intros [[url ->]|[d ->]] c [url' H]; discriminate. Qed.

Lemma observed_after_call (k : Z) (e : effect) :
  is_call e -> observed_after k e.
Proof. intros (id & ev & ->) c [url H]. discriminate. Qed.

Lemma observed_after_wait (k d : Z) : observed_after k (Wait d).
Proof. intros c [url H]. discriminate. Qed.

(** One pass of the [for] loop: the cursor moves to [c], unless the
    dispatch of fetched events raises. *)
Lemma process_checkpoint_runs (c : Z) (w : world) :
  exists t,
    Forall (observed_after (c - 1)) t /\
    (process_checkpoint E c w = (Ok tt, moved w (Some c) t)
     \/
     exists e w3 events,
       process_checkpoint E c w = (Raise e, add_trace w t) /\
       _make_rpc_call E "sui_getCheckpointEvents" [VInt c] w =
       (Ok events, w3) /\
       _process_events events w3 = (Raise e, add_trace w t)).
Proof.
  destruct (get_events_by_checkpoint_returns E c w)
    as (events & t1 & Hget & Ht1 & Hcall).
  destruct (appends_process_events events (add_trace w t1))
    as (t2 & Hw2 & Ht2).
  exists (t1 ++ t2). split.
  { apply Forall_app. split; eapply Forall_impl; try eassumption.
    - intros e. apply observed_after_fetch. lia.
    - intros e. apply observed_after_call. }
  unfold process_checkpoint, bind. rewrite Hget.
  destruct (_process_events events (add_trace w t1)) as [[[]|e] w2] eqn:Hpe;
    simpl in Hw2; subst w2; rewrite add_trace_app.
  - left. rewrite set_checkpoint_moved.
    now rewrite add_trace_as_moved, moved_moved, app_nil_r.
  - right. exists e, (add_trace w t1), events. split; [reflexivity|].
    destruct Hcall as [Hcall|[-> _]].
    + split; [exact Hcall|]. now rewrite <- add_trace_app.
    + rewrite process_events_empty in Hpe. discriminate.
Qed.

(** The [for] loop over [n] checkpoints from [lo] on: the cursor ends [j]
    checkpoints further, where [j = n] unless a dispatch raised. *)
Lemma for_each_checkpoint_runs (n : nat) :
  forall (lo : Z) (w : world),
    cursor w = Some (lo - 1)%Z ->
    exists j t,
      (j <= n)%nat /\
      Forall (observed_after (lo - 1)) t /\
      let w' := moved w (Some (lo - 1 + Z.of_nat j)%Z) t in
      (for_each (range_from lo n) (process_checkpoint E) w = (Ok tt, w') /\
       j = n
       \/
       exists e w2 w3 events,
         for_each (range_from lo n) (process_checkpoint E) w = (Raise e, w') /\
         (j < n)%nat /\
         for_each (range_from lo j) (process_checkpoint E) w = (Ok tt, w2) /\
         _make_rpc_call E "sui_getCheckpointEvents"
                        [VInt (lo + Z.of_nat j)] w2 = (Ok events, w3) /\
         _process_events events w3 = (Raise e, w')).
Proof.
  induction n as [|n IH]; intros lo w Hcur.
  - exists 0%nat, []. repeat split; [lia|constructor|].
    left. split; [|reflexivity]. simpl.
    rewrite Z.add_0_r, <- Hcur, moved_same. reflexivity.
  - cbn [range_from for_each]. unfold bind.
    destruct (process_checkpoint_runs lo w)
      as (t1 & Ht1 & [Hok|(e & w3 & events & He & Hrpc & Hpe)]).
    + rewrite Hok.
      destruct (IH (lo + 1)%Z (moved w (Some lo) t1)) as (j & t & Hj & Ht & H).
      { unfold cursor, moved. simpl. f_equal. lia. }
      exists (S j), (t1 ++ t). split; [lia|]. split.
      { apply Forall_app. split; [exact Ht1|].
        eapply Forall_impl; [|exact Ht].
        intros e. apply observed_after_le. lia. }
      cbv zeta in H |- *. rewrite moved_moved in H.
      replace (lo - 1 + Z.of_nat (S j))%Z with (lo + 1 - 1 + Z.of_nat j)%Z
        by lia.
      destruct H as [[Hrun ->]|(e & w2 & w3 & events & Hrun & Hlt & Hpre
                                & Hrpc & Hpe)].
      * left. now split.
      * right. exists e, w2, w3, events.
        split; [exact Hrun|]. split; [lia|]. split.
        { cbn [range_from for_each]. unfold bind. now rewrite Hok. }
        replace (lo + Z.of_nat (S j))%Z with (lo + 1 + Z.of_nat j)%Z by lia.
        now split.
    + rewrite He. exists 0%nat, t1. split; [lia|]. split; [exact Ht1|].
      right. exists e, w, w3, events. cbv zeta.
      rewrite !Z.add_0_r, <- Hcur, <- add_trace_as_moved.
      split; [reflexivity|]. split; [lia|]. split; [reflexivity|].
      now split.
Qed.

(** One pass of the [while] loop. *)
Lemma poll_cycle_runs (w : world) (k : Z) :
  cursor w = Some k ->
  exists k' t,
    poll_cycle E w = (Ok tt, moved w (Some k') t) /\
    (k <= k')%Z /\
    Forall (observed_after k) t /\
    match fst (get_latest_checkpoint E w) with
    | Raise _ => k' = k
    | Ok latest =>
        k' = Z.max k latest \/
        (k' < latest)%Z /\
        dispatch_raises_after E (snd (get_latest_checkpoint E w)) k k'
                              (moved w (Some k') t)
    end.
Proof.
  intros Hcur.
  destruct (appends_get_latest_checkpoint E w) as (t0 & Hw0 & Ht0).
  assert (Forall (observed_after k) t0) as Hobs0.
  { eapply Forall_impl; [|exact Ht0]. intros e. apply observed_after_latest. }
  unfold poll_cycle, try_except, bind at 1.
  destruct (get_latest_checkpoint E w) as [[latest|e] w0];
    simpl in Hw0; subst w0; simpl fst; simpl snd.
  - unfold bind, get_self. cbn beta iota.
    change (_last_processed_checkpoint (self (add_trace w t0)))
      with (cursor w).
    rewrite Hcur.
    destruct (for_each_checkpoint_runs
                (Z.to_nat (latest + 1 - (k + 1))) (k + 1)%Z (add_trace w t0))
      as (j & t & Hj & Ht & H).
    { change (cursor (add_trace w t0)) with (cursor w). rewrite Hcur.
      f_equal. lia. }
    unfold py_range. cbv zeta in H.
    rewrite add_trace_as_moved, moved_moved, Hcur in H.
    rewrite (add_trace_as_moved w t0), Hcur.
    assert (Forall (observed_after k) (t0 ++ t)) as Hobs.
    { apply Forall_app. split; [exact Hobs0|].
      eapply Forall_impl; [|exact Ht].
      intros e. apply observed_after_le. lia. }
    destruct H as [[Hrun ->]|(e & w2 & w3 & events & Hrun & Hlt & Hpre
                              & Hrpc & Hpe)]; rewrite Hrun.
    + exists (k + 1 - 1 + Z.of_nat (Z.to_nat (latest + 1 - (k + 1))))%Z,
        ((t0 ++ t) ++ [Wait (POLLING_INTERVAL E)]).
      unfold emit. rewrite add_trace_moved.
      split; [reflexivity|]. split; [lia|]. split; [|left; lia].
      apply Forall_app. split; [exact Hobs|].
      constructor; [apply observed_after_wait|constructor].
    + exists (k + 1 - 1 + Z.of_nat j)%Z,
        ((t0 ++ t) ++ [Wait (RETRY_DELAY E)]).
      unfold emit. rewrite add_trace_moved.
      split; [reflexivity|]. split; [lia|]. split.
      { apply Forall_app. split; [exact Hobs|].
        constructor; [apply observed_after_wait|constructor]. }
      right. split; [lia|].
      exists w2, w3, (moved w (Some (k + 1 - 1 + Z.of_nat j)%Z) (t0 ++ t)),
        events, e.
      unfold py_range.
      replace (Z.to_nat (k + 1 - 1 + Z.of_nat j + 1 - (k + 1))) with j by lia.
      replace (k + 1 - 1 + Z.of_nat j + 1)%Z with (k + 1 + Z.of_nat j)%Z
        by lia.
      repeat split; assumption || (now rewrite add_trace_moved).
  - exists k, (t0 ++ [Wait (RETRY_DELAY E)]).
    unfold emit. rewrite add_trace_app, add_trace_as_moved, Hcur.
    split; [reflexivity|]. split; [lia|]. split; [|reflexivity].
    apply Forall_app. split; [exact Hobs0|].
    constructor; [apply observed_after_wait|constructor].
Qed.

Lemma poll_cycles_run (iterations : nat) :
  forall (w : world) (k : Z),
    cursor w = Some k ->
    exists k' t,
      poll_cycles E iterations w = (Ok tt, moved w (Some k') t) /\
      (k <= k')%Z /\
      Forall (observed_after k) t.
Proof.
  induction iterations as [|n IH]; intros w k Hcur.
  - exists k, []. simpl. rewrite <- Hcur, moved_same.
    repeat split; [lia|constructor].
  - cbn [poll_cycles]. unfold bind.
    destruct (poll_cycle_runs w k Hcur) as (k1 & t1 & Hrun & Hle & Ht1 & _).
    rewrite Hrun.
    destruct (IH (moved w (Some k1) t1) k1 eq_refl)
      as (k' & t & Hrun' & Hle' & Ht).
    exists k', (t1 ++ t). rewrite Hrun', moved_moved.
    split; [reflexivity|]. split; [lia|].
    apply Forall_app. split; [exact Ht1|].
    eapply Forall_impl; [|exact Ht]. intros e. now apply observed_after_le.
Qed.

(** The start of the loop on an unset cursor. *)
Lemma poll_start_runs (w : world) :
  cursor w = None ->
  exists t,
    Forall (rpc_effect "sui_getLatestCheckpointSequenceNumber" []) t /\
    snd (get_latest_checkpoint E w) = add_trace w t /\
    poll_start E w =
    (Ok tt,
     moved w (Some match fst (get_latest_checkpoint E w) with
                   | Ok latest => latest
                   | Raise _ => 0%Z
                   end) t).
Proof.
  intros Hcur.
  destruct (appends_get_latest_checkpoint E w) as (t & Hw & Ht).
  exists t. split; [exact Ht|]. split; [exact Hw|].
  unfold poll_start, bind at 1, get_self.
  change (_last_processed_checkpoint (self w)) with (cursor w).
  rewrite Hcur. unfold try_except, bind.
  destruct (get_latest_checkpoint E w) as [[latest|e] w0];
    simpl in Hw; subst w0; simpl fst;
    now rewrite set_checkpoint_moved, add_trace_as_moved, moved_moved,
      app_nil_r.
Qed.

End Cursor.

Section CursorClaims.

(** C1, as stated, fails.  The cursor is at 10 and the chain head at 12;
    the events of checkpoint 11 are fetched, every fetch of the events of
    checkpoint 12 is refused, and the cycle ends with the cursor at 12, not
    at 11. *)
Lemma refused_fetch_moves_cursor :
  let E := shipped (node_refusing 12 12) in
  let w := moved (fresh E None) (Some 10%Z) [] in
  let url := config.DEFAULT_SUI_RPC_URL in
  (forall n, node E n "sui_getCheckpointEvents" [VInt 12]
             = RequestException "connection refused") /\
  poll_cycle E w =
  (Ok tt,
   moved w (Some 12%Z)
         [Post url "sui_getLatestCheckpointSequenceNumber" [];
          Post url "sui_getCheckpointEvents" [VInt 11];
          Post url "sui_getCheckpointEvents" [VInt 12]; Sleep 2;
          Post url "sui_getCheckpointEvents" [VInt 12]; Sleep 2;
          Post url "sui_getCheckpointEvents" [VInt 12];
          Wait 5]) /\
  cursor (snd (poll_cycle E w)) <> Some 11%Z.
Proof.
  cbv zeta. split; [reflexivity|]. split; [reflexivity|].
  vm_compute. discriminate.
Qed.

(** C1, amended.  A failed fetch of a checkpoint's events is taken as an
    empty list of events: the pass for that checkpoint ends normally with
    the cursor on it.  A poll cycle never moves the cursor back; it leaves
    the cursor where it was when the query for the latest checkpoint fails,
    and otherwise takes it to the latest checkpoint, unless, in that cycle,
    the dispatch of the fetched events of a checkpoint raises: the passes
    before that checkpoint have ended normally, the cursor is left on the
    checkpoint before it, and the cycle ends after the back-off wait. *)
Theorem failed_fetch_is_passed_over (E : Env) :
  (forall c w e w1,
      _make_rpc_call E "sui_getCheckpointEvents" [VInt c] w = (Raise e, w1) ->
      process_checkpoint E c w = (Ok tt, moved w1 (Some c) []))
  /\
  (forall w k,
      cursor w = Some k ->
      exists k' t,
        poll_cycle E w = (Ok tt, moved w (Some k') t) /\
        (k <= k')%Z /\
        match fst (get_latest_checkpoint E w) with
        | Raise _ => k' = k
        | Ok latest =>
            k' = Z.max k latest \/
            (k' < latest)%Z /\
            dispatch_raises_after E (snd (get_latest_checkpoint E w)) k k'
                                  (moved w (Some k') t)
        end).
Proof.
  split.
  - intros c w e w1 Hcall.
    unfold process_checkpoint, bind, get_events_by_checkpoint, try_except.
    rewrite Hcall. unfold ret. rewrite process_events_empty.
    apply set_checkpoint_moved.
  - intros w k Hcur.
    destruct (poll_cycle_runs E w k Hcur) as (k' & t & Hrun & Hle & _ & H).
    now exists k', t.
Qed.

Lemma failed_fetch_is_passed_over_witness :
  let E := shipped (node_refusing 12 12) in
  let w := moved (fresh E None) (Some 11%Z) [] in
  process_checkpoint E 12 w =
  (Ok tt,
   moved (snd (_make_rpc_call E "sui_getCheckpointEvents" [VInt 12] w))
         (Some 12%Z) [])
  /\
  exists k' t,
    poll_cycle E w = (Ok tt, moved w (Some k') t) /\
    (11 <= k')%Z /\
    match fst (get_latest_checkpoint E w) with
    | Raise _ => k' = 11%Z
    | Ok latest =>
        k' = Z.max 11 latest \/
        (k' < latest)%Z /\
        dispatch_raises_after E (snd (get_latest_checkpoint E w)) 11 k'
                              (moved w (Some k') t)
    end.
Proof.
  intros E w. split.
  - apply (proj1 (failed_fetch_is_passed_over E) 12%Z w
                 (Exn BlockchainError
                      ("Failed to make RPC call after 3 retries: "
                         ++ "connection refused"))).
    reflexivity.
  - apply (proj2 (failed_fetch_is_passed_over E) w 11%Z).
    reflexivity.
Defined.




End CursorClaims.

(** ** The subscription registry *)

Section Registry.

Context {V : Type}.

Lemma assoc_get_set_same (d : list (string * V)) (k : string) (v : V) :
  assoc_get (assoc_set d k v) k = Some v.
Proof.
  induction d as [|[k' v'] rest IH]; simpl.
  - now rewrite String.eqb_refl.
  - destruct (String.eqb k k') eqn:Hk; simpl; rewrite ?String.eqb_refl, ?Hk;
      [reflexivity|exact IH].
Qed.

Lemma assoc_get_set_other (d : list (string * V)) (k k' : string) (v : V) :
  k' <> k -> assoc_get (assoc_set d k v) k' = assoc_get d k'.
Proof.
  intros Hne. induction d as [|[k0 v0] rest IH]; simpl.
  - apply String.eqb_neq in Hne. now rewrite Hne.
  - destruct (String.eqb k k0) eqn:Hk; simpl.
    + apply String.eqb_eq in Hk. subst k0.
      apply String.eqb_neq in Hne. now rewrite Hne.
    + destruct (String.eqb k' k0); [reflexivity|exact IH].
Qed.

Lemma assoc_mem_in (d : list (string * V)) (k : string) :
  assoc_mem d k = true <-> In k (map fst d).
Proof.
  induction d as [|[k' v'] rest IH]; simpl.
  - split; [discriminate|contradiction].
  - rewrite orb_true_iff, IH, String.eqb_eq. intuition congruence.
Qed.

Lemma assoc_mem_get (d : list (string * V)) (k : string) :
  assoc_mem d k = false <-> assoc_get d k = None.
Proof.
  induction d as [|[k' v'] rest IH]; simpl.
  - tauto.
  - destruct (String.eqb k k'); simpl; [split; discriminate|exact IH].
Qed.

Lemma assoc_del_set_fresh (d : list (string * V)) (k : string) (v : V) :
  assoc_mem d k = false -> assoc_del (assoc_set d k v) k = d.
Proof.
  induction d as [|[k' v'] rest IH]; simpl.
  - now rewrite String.eqb_refl.
  - destruct (String.eqb k k') eqn:Hk; simpl; [discriminate|].
    intros Hmem. now rewrite Hk, (IH Hmem).
Qed.

Lemma assoc_set_keys (d : list (string * V)) (k : string) (v : V) :
  map fst (assoc_set d k v) =
  if assoc_mem d k then map fst d else map fst d ++ [k].
Proof.
  induction d as [|[k' v'] rest IH]; simpl; [reflexivity|].
  destruct (String.eqb k k') eqn:Hk; simpl.
  - apply String.eqb_eq in Hk. now subst.
  - rewrite IH. now destruct (assoc_mem rest k).
Qed.

Lemma assoc_set_unique (d : list (string * V)) (k : string) (v : V) :
  NoDup (map fst d) -> NoDup (map fst (assoc_set d k v)).
Proof.
  intros Hd. rewrite assoc_set_keys.
  destruct (assoc_mem d k) eqn:Hmem; [exact Hd|].
  apply NoDup_app; [exact Hd|repeat constructor; intros []|].
  intros x Hx [<-|[]].
  apply assoc_mem_in in Hx. congruence.
Qed.

Lemma assoc_del_keys_incl (d : list (string * V)) (k x : string) :
  In x (map fst (assoc_del d k)) -> In x (map fst d).
Proof.
  induction d as [|[k' v'] rest IH]; simpl; [auto|].
  destruct (String.eqb k k'); simpl; intuition.
Qed.

Lemma assoc_del_unique (d : list (string * V)) (k : string) :
  NoDup (map fst d) -> NoDup (map fst (assoc_del d k)).
Proof.
  induction d as [|[k' v'] rest IH]; simpl; [auto|].
  intros Hd. inversion Hd as [|? ? Hnotin Hrest]; subst.
  destruct (String.eqb k k'); simpl; [exact Hrest|].
  constructor; [|now apply IH].
  intros Hin. apply Hnotin. eapply assoc_del_keys_incl. exact Hin.
Qed.

Lemma assoc_get_del_same (d : list (string * V)) (k : string) :
  NoDup (map fst d) -> assoc_get (assoc_del d k) k = None.
Proof.
  induction d as [|[k' v'] rest IH]; simpl; [reflexivity|].
  intros Hd. inversion Hd as [|? ? Hnotin Hrest]; subst.
  destruct (String.eqb k k') eqn:Hk; simpl.
  - apply String.eqb_eq in Hk. subst k'.
    apply assoc_mem_get. destruct (assoc_mem rest k) eqn:Hmem; [|reflexivity].
    apply assoc_mem_in in Hmem. contradiction.
  - rewrite Hk. now apply IH.
Qed.

Lemma assoc_get_del_other (d : list (string * V)) (k k' : string) :
  k' <> k -> assoc_get (assoc_del d k) k' = assoc_get d k'.
Proof.
  intros Hne. induction d as [|[k0 v0] rest IH]; simpl; [reflexivity|].
  destruct (String.eqb k k0) eqn:Hk; simpl.
  - apply String.eqb_eq in Hk. subst k0.
    apply String.eqb_neq in Hne. now rewrite Hne.
  - destruct (String.eqb k' k0); [reflexivity|exact IH].
Qed.

End Registry.

Section RegistryProperties.

Lemma world_eta (w : world) :
  {| self := {| rpc_url := rpc_url (self w);
                private_key := private_key (self w);
                _event_listeners := _event_listeners (self w);
                _last_processed_checkpoint :=
                  _last_processed_checkpoint (self w) |};
     trace := trace w |} = w.
Proof. now destruct w as [[] ?]. Qed.

Lemma subscribe_to_events_run (t : EventType) (cb : dict -> result unit)
      (given : option dict) (now : Z) (w : world) :
  subscribe_to_events t cb given now w =
  (Ok (next_subscription_id t now w),
   {| self :=
        {| rpc_url := rpc_url (self w);
           private_key := private_key (self w);
           _event_listeners :=
             assoc_set (registry w) (next_subscription_id t now w)
                       {| event_type := t; callback := cb;
                          filter_params := dict_or_empty given |};
           _last_processed_checkpoint := cursor w |};
      trace := trace w |}).
Proof. reflexivity. Qed.

Lemma unsubscribe_from_events_run (id : string) (w : world) :
  unsubscribe_from_events id w =
  if assoc_mem (registry w) id then
    (Ok true,
     {| self :=
          {| rpc_url := rpc_url (self w);
             private_key := private_key (self w);
             _event_listeners := assoc_del (registry w) id;
             _last_processed_checkpoint := cursor w |};
        trace := trace w |})
  else (Ok false, w).
Proof.
  unfold unsubscribe_from_events, bind, get_self, registry.
  now destruct (assoc_mem (_event_listeners (self w)) id).
Qed.

(** X1.  [subscribe_to_events] returns the id made of the category, the
    time and the size of the registry; in the registry it leaves, that id
    names the new listener, with the empty filter when none was given, and
    every other id names what it named before; the key and the url of the
    client are kept. *)
Theorem subscribe_registers (t : EventType) (cb : dict -> result unit)
        (given : option dict) (now : Z) (w : world) :
  exists w',
    subscribe_to_events t cb given now w =
    (Ok (next_subscription_id t now w), w') /\
    assoc_get (registry w') (next_subscription_id t now w) =
    Some {| event_type := t; callback := cb;
            filter_params := dict_or_empty given |} /\
    (forall id, id <> next_subscription_id t now w ->
                assoc_get (registry w') id = assoc_get (registry w) id) /\
    private_key (self w') = private_key (self w) /\
    rpc_url (self w') = rpc_url (self w).
Proof.
  rewrite subscribe_to_events_run. eexists. split; [reflexivity|].
  unfold registry at 1 3. simpl.
  split; [apply assoc_get_set_same|].
  split; [|repeat split].
  intros id Hid. now apply assoc_get_set_other.
Qed.

Lemma subscribe_registers_witness :
  let E := shipped (scripted [] (RequestException "refused")) in
  exists w',
    subscribe_to_events EPOCH_CHANGE (fun _ => Ok tt) None 17 (fresh E None) =
    (Ok "epoch_change_17_0", w') /\
    assoc_get (registry w') "nft_transfer_17_0" = None.
Proof.
  intros E.
  destruct (subscribe_registers EPOCH_CHANGE (fun _ => Ok tt) None 17
                                (fresh E None))
    as (w' & Hrun & _ & Hother & _).
  exists w'. split; [exact Hrun|].
  rewrite Hother; [reflexivity|discriminate].
Defined.

Lemma subscribe_unsubscribe_run (t : EventType)
      (cb : dict -> result unit) (given : option dict) (now : Z)
      (w : world) :
  assoc_mem (registry w) (next_subscription_id t now w) = false ->
  (subscription_id <- subscribe_to_events t cb given now ;;
   unsubscribe_from_events subscription_id) w = (Ok true, w).
Proof.
  intros Hfresh.
  unfold bind. rewrite subscribe_to_events_run, unsubscribe_from_events_run.
  unfold registry at 1. simpl.
  assert (assoc_mem (assoc_set (registry w) (next_subscription_id t now w)
                               {| event_type := t; callback := cb;
                                  filter_params := dict_or_empty given |})
                    (next_subscription_id t now w) = true) as ->.
  { apply assoc_mem_in. rewrite assoc_set_keys, Hfresh.
    apply in_or_app. right. now left. }
  unfold registry at 1. simpl.
  rewrite (assoc_del_set_fresh _ _ _ Hfresh). unfold registry, cursor.
  simpl. now rewrite world_eta.
Qed.

(** X2.  Subscribing and then unsubscribing the id that was returned gives
    [True] and the registry as it was before, with the key and the url of
    the client, provided that id did not name a listener already. *)
Theorem subscribe_then_unsubscribe (t : EventType)
        (cb : dict -> result unit) (given : option dict) (now : Z)
        (w : world) :
  assoc_mem (registry w) (next_subscription_id t now w) = false ->
  exists w',
    (subscription_id <- subscribe_to_events t cb given now ;;
     unsubscribe_from_events subscription_id) w = (Ok true, w') /\
    registry w' = registry w /\
    private_key (self w') = private_key (self w) /\
    rpc_url (self w') = rpc_url (self w).
Proof.
  intros Hfresh. exists w.
  split; [now apply subscribe_unsubscribe_run|now repeat split].
Qed.

Lemma subscribe_then_unsubscribe_witness :
  let E := shipped (scripted [] (RequestException "refused")) in
  exists w',
    (subscription_id <-
       subscribe_to_events NFT_TRANSFER (fun _ => Ok tt) None 1700000000 ;;
     unsubscribe_from_events subscription_id) (fresh E None) = (Ok true, w') /\
    registry w' = registry (fresh E None) /\
    private_key (self w') = private_key (self (fresh E None)) /\
    rpc_url (self w') = rpc_url (self (fresh E None)).
Proof.
  intros E.
  apply (subscribe_then_unsubscribe NFT_TRANSFER (fun _ => Ok tt) None
                                    1700000000 (fresh E None)).
  reflexivity.
Defined.

(** X4.  [unsubscribe_from_events] returns [True] exactly when the id names
    a listener.  With an unknown id nothing changes.  With a known id (the
    ids being distinct) that id names nothing in the registry afterwards and
    every other id names what it named before. *)
Theorem unsubscribe_removes_that_id (id : string) (w : world) :
  NoDup (map fst (registry w)) ->
  exists w',
    unsubscribe_from_events id w = (Ok (assoc_mem (registry w) id), w') /\
    (assoc_mem (registry w) id = false -> w' = w) /\
    assoc_get (registry w') id = None /\
    (forall id', id' <> id ->
                 assoc_get (registry w') id' = assoc_get (registry w) id').
Proof.
  intros Hd. rewrite unsubscribe_from_events_run.
  destruct (assoc_mem (registry w) id) eqn:Hmem; eexists;
    (split; [reflexivity|]).
  - unfold registry at 1 2. simpl.
    split; [discriminate|]. split; [now apply assoc_get_del_same|].
    intros id' Hne. now apply assoc_get_del_other.
  - split; [reflexivity|]. split; [now apply assoc_mem_get|].
    reflexivity.
Qed.

Lemma unsubscribe_removes_that_id_witness :
  let E := shipped (scripted [] (RequestException "refused")) in
  exists w',
    unsubscribe_from_events "nft_transfer_17_0" (fresh E None) =
    (Ok (assoc_mem (registry (fresh E None)) "nft_transfer_17_0"), w') /\
    (assoc_mem (registry (fresh E None)) "nft_transfer_17_0" = false ->
     w' = fresh E None) /\
    assoc_get (registry w') "nft_transfer_17_0" = None /\
    (forall id',
        id' <> "nft_transfer_17_0" ->
        assoc_get (registry w') id' = assoc_get (registry (fresh E None)) id').
Proof.
  intros E.
  apply (unsubscribe_removes_that_id "nft_transfer_17_0" (fresh E None)).
  constructor.
Defined.

Lemma str_app_assoc (a b c : string) :
  ((a ++ b) ++ c)%string = (a ++ (b ++ c))%string.
Proof. induction a as [|x a IH]; simpl; [reflexivity|now rewrite IH]. Qed.

Lemma eqb_app_head (p a b : string) :
  String.eqb (p ++ a) (p ++ b) = String.eqb a b.
Proof.
  induction p as [|c p IH]; simpl; [reflexivity|].
  now rewrite Ascii.eqb_refl.
Qed.

Lemma last_char_differs (p q : string) (c d : ascii) :
  c <> d -> (p ++ String c "")%string <> (q ++ String d "")%string.
Proof.
  intros Hcd. revert q. induction p as [|x p IH]; intros [|y q]; simpl.
  - congruence.
  - destruct q; simpl; discriminate.
  - destruct p; simpl; discriminate.
  - intros [= _ H]. now apply (IH q).
Qed.

(** X5.  Ids are reused.  From an empty registry, subscribe a first
    listener, then a second one; unsubscribe the first; a third listener
    subscribed in the same second and category as the second gets the id of
    the second and takes its place: the second listener is gone from the
    registry although it was never unsubscribed. *)
Theorem subscription_id_reused (t0 t : EventType) (now0 now : Z)
        (first second third : dict -> result unit)
        (f1 f2 f3 : option dict) (w : world) :
  registry w = [] ->
  exists id0 id1 w',
    id0 <> id1 /\
    (a <- subscribe_to_events t0 first f1 now0 ;;
     b <- subscribe_to_events t second f2 now ;;
     _ <- unsubscribe_from_events a ;;
     c <- subscribe_to_events t third f3 now ;;
     ret (a, b, c)) w = (Ok (id0, id1, id1), w') /\
    registry w' = [(id1, {| event_type := t; callback := third;
                            filter_params := dict_or_empty f3 |})].
Proof.
  intros Hempty.
  set (p0 := (EventType_value t0 ++ "_" ++ str_of_Z now0 ++ "_")%string).
  set (p := (EventType_value t ++ "_" ++ str_of_Z now ++ "_")%string).
  assert ((p0 ++ "0")%string <> (p ++ "1")%string) as Hne
      by (apply last_char_differs; discriminate).
  assert (forall u n v k,
             length (registry v) = k ->
             next_subscription_id u n v =
             ((EventType_value u ++ "_" ++ str_of_Z n ++ "_")
                ++ str_of_nat k)%string) as Hid.
  { intros u n v k <-. unfold next_subscription_id.
    now rewrite !str_app_assoc. }
  assert (String.eqb (p ++ "1") (p0 ++ "0") = false) as Hneq
      by (apply String.eqb_neq; congruence).
  exists (p0 ++ "0")%string, (p ++ "1")%string.
  eexists. split; [exact Hne|].
  unfold bind.
  rewrite subscribe_to_events_run. cbv beta iota.
  rewrite (Hid t0 now0 w 0%nat) by now rewrite Hempty.
  fold p0. change (str_of_nat 0) with "0". rewrite Hempty.
  cbn [assoc_set].
  rewrite subscribe_to_events_run. cbv beta iota.
  rewrite (Hid t now _ 1%nat) by reflexivity.
  fold p. change (str_of_nat 1) with "1".
  cbn [registry self _event_listeners assoc_set]. rewrite Hneq.
  rewrite unsubscribe_from_events_run.
  cbn [registry self _event_listeners assoc_mem assoc_del].
  rewrite String.eqb_refl. cbn [orb].
  rewrite subscribe_to_events_run. cbv beta iota.
  rewrite (Hid t now _ 1%nat) by reflexivity.
  fold p. change (str_of_nat 1) with "1".
  cbn [registry self _event_listeners assoc_set]. rewrite String.eqb_refl.
  unfold ret. split; reflexivity.
Qed.

Lemma subscription_id_reused_witness :
  let E := shipped (scripted [] (RequestException "refused")) in
  exists id0 id1 w',
    id0 <> id1 /\
    (a <- subscribe_to_events NFT_TRANSFER (fun _ => Ok tt) None 17 ;;
     b <- subscribe_to_events CUSTOM (fun _ => Ok tt) None 18 ;;
     _ <- unsubscribe_from_events a ;;
     c <- subscribe_to_events CUSTOM (fun _ => Raise (Exn ValueError "x"))
                              None 18 ;;
     ret (a, b, c)) (fresh E None) = (Ok (id0, id1, id1), w') /\
    registry w' =
    [(id1, {| event_type := CUSTOM;
              callback := fun _ => Raise (Exn ValueError "x");
              filter_params := dict_or_empty None |})].
Proof.
  intros E.
  apply (subscription_id_reused NFT_TRANSFER CUSTOM 17 18).
  reflexivity.
Defined.

End RegistryProperties.

(** ** More on the matcher *)

Section MatcherProperties.

Lemma filter_loop_app (event : dict) (f1 f2 : dict) :
  filter_loop event (f1 ++ f2) = filter_loop event f1 && filter_loop event f2.
Proof.
  induction f1 as [|[key v] rest IH]; [reflexivity|].
  rewrite <- app_comm_cons, !filter_loop_step.
  destruct (walk_parts _ _); [|reflexivity].
  now rewrite IH, andb_assoc.
Qed.

Lemma filter_loop_permutation (event : dict) (f f' : dict) :
  Permutation f f' -> filter_loop event f = filter_loop event f'.
Proof.
  induction 1 as [|[key v] l l' _ IH|[k1 v1] [k2 v2] l|l l' l'' _ IH1 _ IH2].
  - reflexivity.
  - rewrite !filter_loop_step, IH. reflexivity.
  - rewrite !filter_loop_step.
    destruct (walk_parts (str_split "." k1) _) as [x1|];
      destruct (walk_parts (str_split "." k2) _) as [x2|];
      rewrite ?andb_false_r; try reflexivity.
    destruct (py_eq x1 v1), (py_eq x2 v2); reflexivity.
  - congruence.
Qed.

(** X6.  The order of the filter entries does not matter to the matcher,
    and two filters put together match exactly when each of them does: an
    added entry never turns a rejection into a match. *)
Theorem event_matches_filter_order (event : dict) (c : EventType) :
  (forall f f', Permutation f f' ->
                _event_matches event c f = _event_matches event c f') /\
  (forall f1 f2,
      _event_matches event c (f1 ++ f2) = Ok true <->
      _event_matches event c f1 = Ok true /\
      _event_matches event c f2 = Ok true).
Proof.
  split.
  - intros f f' Hperm. unfold _event_matches.
    now rewrite (filter_loop_permutation _ _ _ Hperm).
  - intros f1 f2.
    rewrite !event_matches_true, filter_loop_app, andb_true_iff. tauto.
Qed.

Lemma event_matches_filter_order_witness :
  _event_matches [("type", VStr "nft_transfer"); ("sender", VStr "0x1")]
                 NFT_TRANSFER
                 [("sender", VStr "0x1"); ("type", VStr "nft_transfer")] =
  _event_matches [("type", VStr "nft_transfer"); ("sender", VStr "0x1")]
                 NFT_TRANSFER
                 [("type", VStr "nft_transfer"); ("sender", VStr "0x1")].
Proof.
  apply (proj1 (event_matches_filter_order
                  [("type", VStr "nft_transfer"); ("sender", VStr "0x1")]
                  NFT_TRANSFER)).
  apply perm_swap.
Defined.

(** X7.  An event without a type field, or with the empty type, is
    rejected by every category that inspects the type, whatever the filter.
    The two other categories, with an empty filter, accept every event,
    also one whose type is not a string. *)
Theorem event_without_type (event : dict) (c : EventType) :
  (dict_get event "type" = None \/
   dict_get event "type" = Some (VStr EmptyString) ->
   inspects_type c = true ->
   forall filter, _event_matches event c filter = Ok false) /\
  (inspects_type c = false -> _event_matches event c [] = Ok true).
Proof.
  split.
  - intros Htype Hc filter. unfold _event_matches, dict_get_default.
    assert (match dict_get event "type" with
            | Some v => v
            | None => VStr ""
            end = VStr "") as -> by (destruct Htype as [->| ->]; reflexivity).
    destruct c; try discriminate; reflexivity.
  - intros Hc. unfold _event_matches.
    now rewrite (type_rejects_free _ _ Hc).
Qed.

Lemma event_without_type_witness :
  _event_matches [("sender", VStr "0x1")] CHECKPOINT [] = Ok false /\
  _event_matches [("type", VInt 3)] MOVE_EVENT [] = Ok true.
Proof.
  split.
  - apply (proj1 (event_without_type [("sender", VStr "0x1")] CHECKPOINT)).
    + left. reflexivity.
    + reflexivity.
  - apply (proj2 (event_without_type [("type", VInt 3)] MOVE_EVENT)).
    reflexivity.
Defined.

End MatcherProperties.

(** ** Dispatch *)

Section Dispatch.






End Dispatch.

(** ** More on the polling loop *)

Section PollingProperties.

Variable E : Env.

Lemma event_matches_raises (event : dict) (c : EventType) (v : value)
      (filter : dict) :
  dict_get event "type" = Some v ->
  (forall s, v <> VStr s) ->
  inspects_type c = true ->
  _event_matches event c filter = Raise (no_attribute v "lower").
Proof.
  intros Hget Hv Hc. unfold _event_matches, dict_get_default.
  now rewrite Hget, (type_rejects_other c v Hv Hc).
Qed.

(** The first listener inspects the type and the first event has a type
    that is not a string: the dispatch raises before any call. *)
Lemma process_events_bad_type (w : world) (subscription_id : string)
      (l : listener) (others : list (string * listener)) (d : dict)
      (v : value) (more : list value) :
  registry w = (subscription_id, l) :: others ->
  inspects_type (event_type l) = true ->
  dict_get d "type" = Some v ->
  (forall s, v <> VStr s) ->
  _process_events (VList (VDict d :: more)) w =
  (Raise (no_attribute v "lower"), w).
Proof.
  intros Hreg Hc Hget Hv.
  unfold _process_events, bind, lift, get_self. simpl.
  unfold bind, get_self. unfold registry in Hreg. rewrite Hreg. simpl.
  unfold bind, lift.
  now rewrite (event_matches_raises d (event_type l) v _ Hget Hv Hc).
Qed.

Lemma range_from_first (lo hi : Z) :
  (lo < hi)%Z ->
  py_range lo hi = lo :: range_from (lo + 1) (Z.to_nat (hi - lo) - 1).
Proof.
  intros Hlt. unfold py_range.
  destruct (Z.to_nat (hi - lo)) as [|n] eqn:Hn; [lia|].
  simpl. now rewrite Nat.sub_0_r.
Qed.

Lemma poll_cycle_unfold (w : world) :
  poll_cycle E w =
  match get_latest_checkpoint E w with
  | (Raise _, w1) => (Ok tt, add_trace w1 [Wait (RETRY_DELAY E)])
  | (Ok latest, w1) =>
      match cursor w1 with
      | None => (Ok tt, add_trace w1 [Wait (RETRY_DELAY E)])
      | Some last =>
          match for_each (py_range (last + 1) (latest + 1))
                         (process_checkpoint E) w1 with
          | (Ok _, w2) => (Ok tt, add_trace w2 [Wait (POLLING_INTERVAL E)])
          | (Raise _, w2) => (Ok tt, add_trace w2 [Wait (RETRY_DELAY E)])
          end
      end
  end.
Proof.
  unfold poll_cycle, try_except, bind, get_self, cursor.
  destruct (get_latest_checkpoint E w) as [[latest|e] w1]; [|reflexivity].
  destruct (_last_processed_checkpoint (self w1)) as [last|]; [|reflexivity].
  destruct (for_each _ _ w1) as [[[]|e] w2]; reflexivity.
Qed.

(** X9.  One event whose type is not a string stalls the loop.  When the
    first listener inspects the type and the first event fetched for the
    checkpoint after the cursor has such a type, the cycle ends in the
    back-off wait with the cursor where it was, and no callback has been
    called in the cycle, not even for the other events of the checkpoint or
    for listeners that inspect nothing. *)
Theorem bad_event_stalls_cycle (w w1 w2 : world) (k latest : Z)
        (subscription_id : string) (l : listener)
        (others : list (string * listener)) (d : dict) (v : value)
        (more : list value) :
  cursor w = Some k ->
  registry w = (subscription_id, l) :: others ->
  inspects_type (event_type l) = true ->
  dict_get d "type" = Some v ->
  (forall s, v <> VStr s) ->
  get_latest_checkpoint E w = (Ok latest, w1) ->
  (k < latest)%Z ->
  _make_rpc_call E "sui_getCheckpointEvents" [VInt (k + 1)] w1 =
  (Ok (VList (VDict d :: more)), w2) ->
  exists t,
    poll_cycle E w = (Ok tt, add_trace w (t ++ [Wait (RETRY_DELAY E)])) /\
    cursor (add_trace w (t ++ [Wait (RETRY_DELAY E)])) = Some k /\
    Forall (fun e => ~ is_call e) t.
Proof.
  intros Hcur Hreg Hc Hget Hv Hlatest Hlt Hcall.
  destruct (appends_get_latest_checkpoint E w) as (t0 & Hw0 & Ht0).
  rewrite Hlatest in Hw0. simpl in Hw0. subst w1.
  destruct (appends_make_rpc_call E "sui_getCheckpointEvents" [VInt (k + 1)]
                                  (add_trace w t0)) as (t1 & Hw1 & Ht1).
  rewrite Hcall in Hw1. simpl in Hw1. subst w2.
  exists (t0 ++ t1). split; [|split].
  - rewrite poll_cycle_unfold, Hlatest.
    change (cursor (add_trace w t0)) with (cursor w).
    rewrite Hcur, range_from_first by lia.
    cbn [for_each]. unfold bind at 1.
    unfold process_checkpoint at 1, bind at 1.
    unfold get_events_by_checkpoint, try_except. rewrite Hcall.
    unfold bind at 1.
    rewrite (process_events_bad_type _ subscription_id l others d v more)
      by assumption.
    now rewrite !add_trace_app, app_assoc.
  - exact Hcur.
  - apply Forall_app. split; eapply Forall_impl; try eassumption.
    + intros e [[url ->]|[s ->]] (id & ev & H); discriminate.
    + intros e [[url ->]|[s ->]] (id & ev & H); discriminate.
Qed.

(** X10.  With callbacks that leave the client alone, and return or raise
    an exception, the polling loop does not raise, whatever the node answers
    and whatever the events hold.  It changes nothing of the client but the
    cursor, which is set afterwards.  Started on a set cursor, it never
    moves the cursor back and fetches only checkpoints after it. *)
Theorem poll_events_never_raises (iterations : nat) (w : world) :
  exists k' t,
    _poll_events E iterations w = (Ok tt, moved w (Some k') t) /\
    (forall k, cursor w = Some k ->
               (k <= k')%Z /\ Forall (observed_after k) t).
Proof.
  destruct (cursor w) as [k|] eqn:Hcur.
  - destruct (poll_cycles_run E iterations w k Hcur) as (k' & t & Hrun & Hle & Ht).
    exists k', t. split.
    + unfold _poll_events, bind at 1, poll_start, bind, get_self.
      change (_last_processed_checkpoint (self w)) with (cursor w).
      now rewrite Hcur.
    + intros k0 [= <-]. now split.
  - destruct (poll_start_runs E w Hcur) as (t0 & _ & _ & Hstart).
    set (start := match fst (get_latest_checkpoint E w) with
                  | Ok latest => latest
                  | Raise _ => 0%Z
                  end) in *.
    destruct (poll_cycles_run E iterations (moved w (Some start) t0) start
                              eq_refl) as (k' & t & Hrun & _ & _).
    exists k', (t0 ++ t). split; [|discriminate].
    unfold _poll_events, bind. now rewrite Hstart, Hrun, moved_moved.
Qed.

(** X11.  A cycle that finds nothing new fetches nothing and keeps the
    cursor.  When the query for the latest checkpoint fails, the cycle ends
    with the back-off wait; when it answers a checkpoint at or below the
    cursor (also one below it), the cycle ends with the polling wait. *)
Theorem poll_cycle_nothing_new (w w1 : world) (k : Z) :
  cursor w = Some k ->
  (forall e,
      get_latest_checkpoint E w = (Raise e, w1) ->
      poll_cycle E w = (Ok tt, add_trace w1 [Wait (RETRY_DELAY E)])) /\
  (forall latest,
      get_latest_checkpoint E w = (Ok latest, w1) ->
      (latest <= k)%Z ->
      poll_cycle E w = (Ok tt, add_trace w1 [Wait (POLLING_INTERVAL E)])) /\
  (forall r, get_latest_checkpoint E w = (r, w1) -> cursor w1 = Some k).
Proof.
  intros Hcur.
  assert (forall r, get_latest_checkpoint E w = (r, w1) -> cursor w1 = Some k)
    as Hsame.
  { intros r Hr.
    destruct (appends_get_latest_checkpoint E w) as (t0 & Hw0 & _).
    rewrite Hr in Hw0. simpl in Hw0. now subst w1. }
  split; [|split; [|exact Hsame]].
  - intros e Hlatest. now rewrite poll_cycle_unfold, Hlatest.
  - intros latest Hlatest Hle.
    rewrite poll_cycle_unfold, Hlatest, (Hsame _ Hlatest). unfold py_range.
    replace (Z.to_nat (latest + 1 - (k + 1))) with 0%nat by lia.
    reflexivity.
Qed.

End PollingProperties.

Lemma bad_event_stalls_cycle_witness :
  let F := shipped (fun _ method _ =>
                      if String.eqb method "sui_getCheckpointEvents" then
                        Body [("result",
                               VList [VDict [("type", VInt 7)];
                                      VDict [("type", VStr "transfer")]])]
                      else Body [("result", VInt 5)]) in
  let w := moved (snd (subscribe_to_events NFT_TRANSFER (fun _ => Ok tt)
                                           None 17 (fresh F None)))
                 (Some 4%Z) [] in
  exists t,
    poll_cycle F w = (Ok tt, add_trace w (t ++ [Wait (RETRY_DELAY F)])) /\
    cursor (add_trace w (t ++ [Wait (RETRY_DELAY F)])) = Some 4%Z /\
    Forall (fun e => ~ is_call e) t.
Proof.
  intros F w.
  apply (bad_event_stalls_cycle
           F w (snd (get_latest_checkpoint F w))
           (snd (_make_rpc_call F "sui_getCheckpointEvents" [VInt 5]
                                (snd (get_latest_checkpoint F w))))
           4 5 "nft_transfer_17_0"
           {| event_type := NFT_TRANSFER; callback := fun _ => Ok tt;
              filter_params := [] |}
           [] [("type", VInt 7)] (VInt 7)
           [VDict [("type", VStr "transfer")]]).
  - reflexivity.
  - reflexivity.
  - reflexivity.
  - reflexivity.
  - discriminate.
  - reflexivity.
  - lia.
  - reflexivity.
Defined.

Lemma poll_events_never_raises_witness :
  let F := shipped (node_refusing 3 4) in
  let w := moved (fresh F None) (Some 1%Z) [] in
  exists k' t,
    _poll_events F 2 w = (Ok tt, moved w (Some k') t) /\
    (1 <= k')%Z /\ Forall (observed_after 1) t.
Proof.
  intros F w.
  destruct (poll_events_never_raises F 2 w) as (k' & t & Hrun & H).
  exists k', t. split; [exact Hrun|]. apply H. reflexivity.
Defined.

Lemma poll_cycle_nothing_new_witness :
  let F := shipped (node_refusing 3 4) in
  let w := moved (fresh F None) (Some 9%Z) [] in
  poll_cycle F w =
  (Ok tt,
   add_trace (snd (get_latest_checkpoint F w)) [Wait (POLLING_INTERVAL F)]).
Proof.
  intros F w.
  apply (proj1 (proj2 (poll_cycle_nothing_new
                         F w (snd (get_latest_checkpoint F w)) 9 eq_refl))
               4%Z).
  - reflexivity.
  - lia.
Defined.

(** ** More on the transport *)

Section TransportProperties.

Variable E : Env.
Variables (method : string) (params : list value).

(** X12.  After any number [k] of failed attempts within the budget, an
    answer with a result ends the call with that result: [k + 1] attempts
    and [k] sleeps in all.  When the first attempt answers, there is one
    attempt and no sleep. *)
Theorem make_rpc_call_result_after_failures (w : world) (k : nat)
        (r : dict) (v : value) :
  (k < MAX_RETRIES E)%nat ->
  (forall i, (i < k)%nat ->
             network_failure (node E (posts w + i) method params) <> None) ->
  node E (posts w + k) method params = Body r ->
  dict_get r "error" = None ->
  dict_get r "result" = Some v ->
  let url := rpc_url (self w) in
  let t := failed_attempts E url method params k
             ++ [Post url method params] in
  _make_rpc_call E method params w = (Ok v, add_trace w t) /\
  length (filter is_post t) = S k /\
  length (filter is_sleep t) = k /\
  (k = 0%nat -> t = [Post url method params]).
Proof.
  intros Hk Hfail Hnode Herr Hres. cbv zeta. split; [|split; [|split]].
  - unfold _make_rpc_call.
    replace (S (MAX_RETRIES E)) with (k + S (MAX_RETRIES E - k))%nat by lia.
    rewrite rpc_loop_failures; [|simpl; lia|assumption].
    rewrite (rpc_loop_result E method params _ _ _ r v);
      [now rewrite add_trace_app|simpl; lia| |assumption|assumption].
    now rewrite posts_after_failures.
  - rewrite filter_app, length_app, posts_failed_attempts. simpl. lia.
  - rewrite filter_app, length_app. simpl. rewrite Nat.add_0_r.
    clear. induction k; simpl; congruence.
  - now intros ->.
Qed.

(** X13.  An answer that is an object without an error and without a
    result, or whose error is not an object, is not retried either, and
    what the call raises then is not the domain error: a [KeyError] in the
    first case, an [AttributeError] in the second. *)
Theorem make_rpc_call_malformed_answer (w : world) (k : nat) (r : dict) :
  (k < MAX_RETRIES E)%nat ->
  (forall i, (i < k)%nat ->
             network_failure (node E (posts w + i) method params) <> None) ->
  node E (posts w + k) method params = Body r ->
  let url := rpc_url (self w) in
  let w' := add_trace w (failed_attempts E url method params k
                           ++ [Post url method params]) in
  (dict_get r "error" = None ->
   dict_get r "result" = None ->
   _make_rpc_call E method params w = (Raise (Exn KeyError "'result'"), w')) /\
  (forall err,
      dict_get r "error" = Some err ->
      (forall d, err <> VDict d) ->
      _make_rpc_call E method params w =
      (Raise (no_attribute err "get"), w')).
Proof.
  intros Hk Hfail Hnode. cbv zeta.
  assert (forall a,
             rpc_loop E (S (MAX_RETRIES E - k)) (0 + k) method params
                      (add_trace w (failed_attempts E (rpc_url (self w))
                                                    method params k)) = a ->
             _make_rpc_call E method params w = a) as Hrun.
  { intros a <-. unfold _make_rpc_call.
    replace (S (MAX_RETRIES E)) with (k + S (MAX_RETRIES E - k))%nat by lia.
    rewrite rpc_loop_failures; [reflexivity|simpl; lia|assumption]. }
  assert ((0 + k <? MAX_RETRIES E)%nat = true) as Hlt
      by (apply Nat.ltb_lt; simpl; lia).
  split.
  - intros Herr Hres. apply Hrun. cbn [rpc_loop]. rewrite Hlt.
    unfold bind, requests_post.
    rewrite posts_after_failures, Hnode, Herr, Hres.
    unfold raise. now rewrite add_trace_app.
  - intros err Herr Hnd. apply Hrun. cbn [rpc_loop]. rewrite Hlt.
    unfold bind, requests_post.
    rewrite posts_after_failures, Hnode, Herr.
    unfold lift, error_message.
    destruct err; try (now rewrite add_trace_app). now elim (Hnd d).
Qed.

(** X14.  With a budget of zero the call makes no attempt and returns
    [None]; a fetch of events then returns [None], not the empty list, and
    the query for the latest checkpoint raises the domain error. *)
Theorem make_rpc_call_without_budget (w : world) :
  MAX_RETRIES E = 0%nat ->
  _make_rpc_call E method params w = (Ok VNone, w) /\
  (forall c, get_events_by_checkpoint E c w = (Ok VNone, w)) /\
  exists m,
    get_latest_checkpoint E w =
    (Raise (Exn BlockchainError ("Failed to get latest checkpoint: " ++ m)),
     w).
Proof.
  intros Hzero.
  assert (forall m p, _make_rpc_call E m p w = (Ok VNone, w)) as Hcall.
  { intros m p. unfold _make_rpc_call. rewrite Hzero. cbn [rpc_loop].
    now rewrite Hzero. }
  split; [apply Hcall|]. split.
  - intros c. unfold get_events_by_checkpoint, try_except.
    now rewrite Hcall.
  - eexists. unfold get_latest_checkpoint, try_except, bind.
    rewrite Hcall. reflexivity.
Qed.

Lemma rpc_loop_shape (fuel : nat) :
  forall (rc : nat) (w : world),
    (MAX_RETRIES E - rc < fuel)%nat ->
    (rc < MAX_RETRIES E)%nat ->
    exists k,
      (rc + k < MAX_RETRIES E)%nat /\
      snd (rpc_loop E fuel rc method params w) =
      add_trace w (failed_attempts E (rpc_url (self w)) method params k
                     ++ [Post (rpc_url (self w)) method params]).
Proof.
  induction fuel as [|fuel IH]; intros rc w Hfuel Hrc; [lia|].
  cbn [rpc_loop].
  assert ((rc <? MAX_RETRIES E)%nat = true) as -> by now apply Nat.ltb_lt.
  unfold bind at 1, requests_post.
  destruct (node E (posts w) method params) as [x|x|r].
  1,2: destruct (MAX_RETRIES E <=? rc + 1)%nat eqn:Hle;
    [exists 0%nat; split; [lia|reflexivity]|];
    apply Nat.leb_gt in Hle; unfold bind, emit; rewrite add_trace_app;
    destruct (IH (rc + 1)%nat
                 (add_trace w [Post (rpc_url (self w)) method params;
                               Sleep (RETRY_DELAY E)]))
      as (k & Hk & Hw); [lia|lia|];
    exists (S k); (split; [lia|]); simpl app in Hw |- *; rewrite Hw;
    now rewrite add_trace_app.
  exists 0%nat. split; [lia|].
  destruct (dict_get r "error") as [err|].
  - unfold bind, lift, raise. now destruct (error_message E err).
  - now destruct (dict_get r "result").
Qed.

(** X15.  The effects of a call are attempts separated by one sleep of the
    retry delay each, and nothing else: with a budget of zero, none;
    otherwise [k] attempts each followed by a sleep, then a last attempt,
    with [k] below the budget.  A call never ends on a sleep. *)
Theorem make_rpc_call_effects (w : world) :
  MAX_RETRIES E = 0%nat /\ snd (_make_rpc_call E method params w) = w \/
  exists k,
    (k < MAX_RETRIES E)%nat /\
    snd (_make_rpc_call E method params w) =
    add_trace w (failed_attempts E (rpc_url (self w)) method params k
                   ++ [Post (rpc_url (self w)) method params]).
Proof.
  destruct (MAX_RETRIES E) as [|n] eqn:Hmax.
  - left. split; [reflexivity|].
    unfold _make_rpc_call. rewrite Hmax. cbn [rpc_loop].
    now rewrite Hmax.
  - right. unfold _make_rpc_call. rewrite Hmax.
    destruct (rpc_loop_shape (S (S n)) 0 w) as (k & Hk & Hw);
      [lia|lia|].
    exists k. rewrite <- Hmax. split; [lia|]. rewrite Hmax. exact Hw.
Qed.

End TransportProperties.

Lemma make_rpc_call_result_after_failures_witness :
  let E := shipped (scripted [] (Body [("result", VStr "ok")])) in
  _make_rpc_call E "m" [] (fresh E None) =
  (Ok (VStr "ok"), add_trace (fresh E None) [Post (SUI_RPC_URL E) "m" []]).
Proof.
  intros E.
  apply (make_rpc_call_result_after_failures
           E "m" [] (fresh E None) 0 [("result", VStr "ok")] (VStr "ok")).
  - unfold E. simpl. unfold config.MAX_RETRIES. lia.
  - intros i Hi. lia.
  - reflexivity.
  - reflexivity.
  - reflexivity.
Defined.

Lemma make_rpc_call_malformed_answer_witness :
  let E := shipped (scripted [RequestException "refused"]
                             (Body [("jsonrpc", VStr "2.0")])) in
  _make_rpc_call E "m" [] (fresh E None) =
  (Raise (Exn KeyError "'result'"),
   add_trace (fresh E None)
             [Post (SUI_RPC_URL E) "m" []; Sleep 2;
              Post (SUI_RPC_URL E) "m" []]).
Proof.
  intros E.
  apply (proj1 (make_rpc_call_malformed_answer
                  E "m" [] (fresh E None) 1 [("jsonrpc", VStr "2.0")]
                  ltac:(unfold E; simpl; unfold config.MAX_RETRIES; lia)
                  ltac:(intros i Hi; assert (i = 0)%nat as -> by lia;
                        discriminate)
                  eq_refl)).
  - reflexivity.
  - reflexivity.
Defined.

Lemma make_rpc_call_without_budget_witness :
  let E := with_budget 0 (scripted [] (Body [("result", VInt 1)])) in
  _make_rpc_call E "m" [] (fresh E None) = (Ok VNone, fresh E None).
Proof.
  intros E.
  apply (make_rpc_call_without_budget E "m" [] (fresh E None)).
  reflexivity.
Defined.

(** ** The object gateway *)

Section GatewayProperties.

Variable E : Env.

Lemma make_rpc_call_frame (method : string) (params : list value)
      (w : world) :
  (posts (snd (_make_rpc_call E method params w))
   <= posts w + MAX_RETRIES E)%nat /\
  self (snd (_make_rpc_call E method params w)) = self w.
Proof.
  split.
  - unfold _make_rpc_call.
    etransitivity; [apply rpc_loop_attempts_bound|]. lia.
  - destruct (appends_make_rpc_call E method params w) as (t & -> & _).
    reflexivity.
Qed.

(** A call followed by a step that leaves the world alone, inside the
    [try] that turns every exception into the domain error. *)
Lemma gateway_wrap {A} (method : string) (params : list value)
      (k : value -> result A) (prefix : string) (msg : exn -> string) :
  (forall e, exists m, msg e = (prefix ++ m)%string) ->
  gateway_contract
    E prefix
    (try_except (result <- _make_rpc_call E method params ;; lift (k result))
                (fun e => raise (Exn BlockchainError (msg e)))).
Proof.
  intros Hmsg w.
  destruct (make_rpc_call_frame method params w) as [Hposts Hself].
  unfold try_except, bind, lift, raise.
  destruct (_make_rpc_call E method params w) as [[v|e] w1];
    simpl in Hposts, Hself.
  - destruct (k v) as [a|e]; simpl; repeat split; auto.
    destruct (Hmsg e) as [m ->]. now exists m.
  - simpl. repeat split; auto. destruct (Hmsg e) as [m ->]. now exists m.
Qed.

Lemma try_except_ext {A} (c c' : M A) (h : exn -> M A) (w : world) :
  c w = c' w -> try_except c h w = try_except c' h w.
Proof. intros H. unfold try_except. now rewrite H. Qed.

Lemma bind_lift_ok {A} (c : M A) (w : world) :
  bind c (fun a => lift (Ok a)) w = c w.
Proof. unfold bind, lift. now destruct (c w) as [[a|e] w']. Qed.

Lemma gateway_contract_ext {A} (prefix : string) (op op' : M A) :
  (forall w, op w = op' w) ->
  gateway_contract E prefix op' -> gateway_contract E prefix op.
Proof. intros Heq H w. rewrite Heq. apply H. Qed.

(** X16.  Each operation of the gateway raises nothing but the domain error
    with its own prefix, whatever went wrong in the call (the network, the
    remote node, the shape of the answer), makes no more attempts than the
    budget allows and leaves the client as it is. *)
Theorem gateway_operations_contract :
  gateway_contract E "Failed to get latest checkpoint: "
                   (get_latest_checkpoint E) /\
  (forall digest,
      gateway_contract E ("Failed to get transaction block " ++ digest ++ ": ")
                       (get_transaction_block E digest)) /\
  (forall object_id,
      gateway_contract E ("Failed to get object " ++ object_id ++ ": ")
                       (get_object E object_id)) /\
  (forall address object_type,
      gateway_contract E ("Failed to get objects owned by " ++ address ++ ": ")
                       (get_owned_objects E address object_type)).
Proof.
  split; [|split; [|split]].
  - apply gateway_wrap. intros e. now exists (exn_msg e).
  - intros digest.
    eapply gateway_contract_ext;
      [|apply (gateway_wrap
                 "sui_getTransactionBlock"
                 [VStr digest;
                  VDict [("showEffects", VBool true);
                         ("showEvents", VBool true);
                         ("showObjectChanges", VBool true)]]
                 (fun v => Ok v) _
                 (fun e => "Failed to get transaction block " ++ digest
                             ++ ": " ++ exn_msg e)%string)].
    + intros w. unfold get_transaction_block.
      apply try_except_ext. symmetry. apply bind_lift_ok.
    + intros e. exists (exn_msg e). now rewrite !str_app_assoc.
  - intros object_id.
    eapply gateway_contract_ext;
      [|apply (gateway_wrap
                 "sui_getObject"
                 [VStr object_id;
                  VDict [("showContent", VBool true);
                         ("showDisplay", VBool true);
                         ("showOwner", VBool true)]]
                 (fun v => Ok v) _
                 (fun e => "Failed to get object " ++ object_id
                             ++ ": " ++ exn_msg e)%string)].
    + intros w. unfold get_object.
      apply try_except_ext. symmetry. apply bind_lift_ok.
    + intros e. exists (exn_msg e). now rewrite !str_app_assoc.
  - intros address object_type.
    eapply gateway_contract_ext;
      [|apply (gateway_wrap
                 "sui_getOwnedObjects"
                 [VStr address; VDict (owned_objects_filter object_type);
                  VNone; VInt 100]
                 (fun v => match v with
                           | VDict r => Ok (dict_get_default r "data" (VList []))
                           | _ => Raise (no_attribute v "get")
                           end)
                 _
                 (fun e => "Failed to get objects owned by " ++ address
                             ++ ": " ++ exn_msg e)%string)].
    + intros w. unfold get_owned_objects. apply try_except_ext.
      unfold bind. destruct (_make_rpc_call E _ _ w) as [[v|e] w1];
        [|reflexivity].
      now destruct v.
    + intros e. exists (exn_msg e). now rewrite !str_app_assoc.
Qed.

(** X17.  [get_owned_objects] asks for the objects of the address with a
    page size of 100, no cursor, and a filter that is empty when no type
    (or the empty type) is given and that holds the type under
    ["StructType"] otherwise.  From an answer that is an object it returns
    what is under ["data"], or the empty list when that key is missing;
    an answer that is not an object raises the domain error. *)
Theorem get_owned_objects_data (address : string)
        (object_type : option string) (w w1 : world) :
  let request := [VStr address; VDict (owned_objects_filter object_type);
                  VNone; VInt 100] in
  (forall r,
      _make_rpc_call E "sui_getOwnedObjects" request w = (Ok (VDict r), w1) ->
      get_owned_objects E address object_type w =
      (Ok match dict_get r "data" with
          | Some data => data
          | None => VList []
          end, w1)) /\
  (forall v,
      _make_rpc_call E "sui_getOwnedObjects" request w = (Ok v, w1) ->
      (forall r, v <> VDict r) ->
      get_owned_objects E address object_type w =
      (Raise (Exn BlockchainError
                  ("Failed to get objects owned by " ++ address ++ ": "
                     ++ exn_msg (no_attribute v "get"))), w1)) /\
  (owned_objects_filter object_type = [] <->
   object_type = None \/ object_type = Some EmptyString) /\
  (forall t, object_type = Some t -> t <> EmptyString ->
             owned_objects_filter object_type = [("StructType", VStr t)]).
Proof.
  cbv zeta. split; [|split; [|split]].
  - intros r Hcall. unfold get_owned_objects, try_except, bind.
    now rewrite Hcall.
  - intros v Hcall Hv. unfold get_owned_objects, try_except, bind.
    rewrite Hcall. destruct v; try reflexivity. now elim (Hv d).
  - destruct object_type as [[|c t]|]; simpl; split; intros H;
      try discriminate; auto.
    destruct H; discriminate.
  - intros t -> Ht. destruct t; [congruence|reflexivity].
Qed.

End GatewayProperties.

Lemma get_owned_objects_data_witness :
  let E := shipped (scripted [] (Body [("result", VDict [("cursor", VNone)])])) in
  get_owned_objects E "0xabc" (Some "") (fresh E None) =
  (Ok (VList []),
   snd (_make_rpc_call E "sui_getOwnedObjects"
                       [VStr "0xabc"; VDict []; VNone; VInt 100]
                       (fresh E None))).
Proof.
  intros E.
  apply (proj1 (get_owned_objects_data
                  E "0xabc" (Some "") (fresh E None)
                  (snd (_make_rpc_call E "sui_getOwnedObjects"
                                       [VStr "0xabc"; VDict []; VNone;
                                        VInt 100] (fresh E None))))
               [("cursor", VNone)]).
  reflexivity.
Defined.

(** ** The agent *)

Section AgentProperties.

Variable E : Env.

Lemma register_event_handler_run (agent : WalrusAgent) (event_name : string)
      (handler : dict -> result unit) (given : option dict) (now : Z)
      (w : world) :
  let t := fst (event_type_of_name event_name given) in
  let filter := snd (event_type_of_name event_name given) in
  _register_event_handler agent event_name handler given now w =
  (Ok {| event_handlers :=
           assoc_set (event_handlers agent) event_name handler;
         event_subscriptions :=
           assoc_set (event_subscriptions agent) event_name
                     (next_subscription_id t now w) |},
   snd (subscribe_to_events t handler filter now w)).
Proof.
  cbv zeta. unfold _register_event_handler.
  destruct (event_type_of_name event_name given) as [t filter].
  reflexivity.
Qed.

Lemma agent_eta (agent : WalrusAgent) :
  {| event_handlers := event_handlers agent;
     event_subscriptions := event_subscriptions agent |} = agent.
Proof. now destruct agent. Qed.

(** X18.  Registering a handler under a new name and then removing the
    handler of that name returns [True] and puts the agent and the client
    back as they were, provided the id given to the subscription named no
    listener before. *)
Theorem register_then_remove (agent : WalrusAgent) (event_name : string)
        (handler : dict -> result unit) (given : option dict) (now : Z)
        (w : world) :
  assoc_mem (event_handlers agent) event_name = false ->
  assoc_mem (event_subscriptions agent) event_name = false ->
  assoc_mem (registry w)
            (next_subscription_id
               (fst (event_type_of_name event_name given)) now w) = false ->
  exists agent1 w1,
    _register_event_handler agent event_name handler given now w =
    (Ok agent1, w1) /\
    remove_event_handler E agent1 event_name w1 = (Ok true, agent, w).
Proof.
  intros Hh Hs Hfresh. eexists. eexists.
  split; [apply register_event_handler_run|].
  set (t := fst (event_type_of_name event_name given)) in *.
  set (filter := snd (event_type_of_name event_name given)).
  pose proof (subscribe_unsubscribe_run t handler filter now w Hfresh)
    as Hround.
  unfold bind in Hround. rewrite subscribe_to_events_run in Hround.
  unfold remove_event_handler. cbn [event_subscriptions event_handlers].
  rewrite assoc_get_set_same, subscribe_to_events_run. cbn [snd].
  rewrite Hround.
  assert (assoc_mem (assoc_set (event_handlers agent) event_name handler)
                    event_name = true) as ->.
  { apply assoc_mem_in. rewrite assoc_set_keys, Hh.
    apply in_or_app. right. now left. }
  rewrite !assoc_del_set_fresh by assumption.
  now rewrite agent_eta.
Qed.

Lemma registry_after_subscribe (t : EventType) (cb : dict -> result unit)
      (given : option dict) (now : Z) (w : world) :
  registry (snd (subscribe_to_events t cb given now w)) =
  assoc_set (registry w) (next_subscription_id t now w)
            {| event_type := t; callback := cb;
               filter_params := dict_or_empty given |}.
Proof. reflexivity. Qed.

Lemma assoc_mem_set_same {V} (d : list (string * V)) (k : string) (v : V) :
  assoc_mem (assoc_set d k v) k = true.
Proof.
  apply assoc_mem_in. rewrite assoc_set_keys.
  destruct (assoc_mem d k) eqn:Hk; [now apply assoc_mem_in|].
  apply in_or_app. right. now left.
Qed.

(** X19.  Registering a second handler under a name that has one leaves the
    first subscription behind.  Removing the handler of that name removes
    the second subscription only: the first listener stays in the registry
    of the client, the agent no longer knows the name, and a second removal
    returns [False].  (The two subscription ids are taken to differ.) *)
Theorem second_registration_orphans_first (agent : WalrusAgent)
        (event_name : string) (first second : dict -> result unit)
        (f1 f2 : option dict) (now1 now2 : Z) (w : world) :
  NoDup (map fst (event_subscriptions agent)) ->
  let t := fst (event_type_of_name event_name f1) in
  let id1 := next_subscription_id t now1 w in
  let r1 := _register_event_handler agent event_name first f1 now1 w in
  next_subscription_id (fst (event_type_of_name event_name f2)) now2 (snd r1)
  <> id1 ->
  exists agent1 agent2 w2 agent3 w3,
    r1 = (Ok agent1, snd r1) /\
    _register_event_handler agent1 event_name second f2 now2 (snd r1) =
    (Ok agent2, w2) /\
    remove_event_handler E agent2 event_name w2 = (Ok true, agent3, w3) /\
    assoc_get (registry w3) id1 =
    Some {| event_type := t; callback := first;
            filter_params :=
              dict_or_empty (snd (event_type_of_name event_name f1)) |} /\
    assoc_get (event_subscriptions agent3) event_name = None /\
    remove_event_handler E agent3 event_name w3 = (Ok false, agent3, w3).
Proof.
  intros Hd. cbv zeta. rewrite register_event_handler_run. cbn [snd].
  set (t1 := fst (event_type_of_name event_name f1)).
  set (t2 := fst (event_type_of_name event_name f2)).
  set (g1 := snd (event_type_of_name event_name f1)).
  set (id1 := next_subscription_id t1 now1 w).
  pose proof (registry_after_subscribe t1 first g1 now1 w) as Hreg1.
  fold id1 in Hreg1.
  remember (snd (subscribe_to_events t1 first g1 now1 w)) as w1 eqn:Hw1.
  clear Hw1.
  set (id2 := next_subscription_id t2 now2 w1). intros Hne.
  pose proof (registry_after_subscribe
                t2 second (snd (event_type_of_name event_name f2)) now2 w1)
    as Hreg2.
  fold id2 in Hreg2.
  remember (snd (subscribe_to_events
                   t2 second (snd (event_type_of_name event_name f2))
                   now2 w1)) as w2 eqn:Hw2.
  eexists. eexists. exists w2. eexists. eexists.
  split; [reflexivity|].
  split; [rewrite Hw2; apply register_event_handler_run|].
  clear Hw2. fold t2 id2.
  assert (assoc_get
            (assoc_del
               (assoc_set
                  (assoc_set (event_subscriptions agent) event_name id1)
                  event_name id2) event_name) event_name = None) as Hgone.
  { apply assoc_get_del_same. now do 2 apply assoc_set_unique. }
  unfold remove_event_handler at 1.
  cbn [event_subscriptions event_handlers].
  rewrite assoc_get_set_same, unsubscribe_from_events_run, Hreg2.
  rewrite !assoc_mem_set_same.
  split; [reflexivity|].
  split; [|split; [exact Hgone|]].
  - unfold registry at 1. cbn [self _event_listeners].
    rewrite assoc_get_del_other by congruence.
    rewrite assoc_get_set_other by congruence.
    rewrite Hreg1. apply assoc_get_set_same.
  - unfold remove_event_handler. cbn [event_subscriptions].
    now rewrite Hgone.
Qed.

(** X20.  Through the agent, a missing credential surfaces as the error of
    the agent that carries the message of the client, with the world left
    as it was; and [get_blockchain_object] raises nothing but the error of
    the agent, which names the object twice. *)
Theorem agent_gateway_errors :
  (forall action_data now now_iso w,
      str_truthy (private_key (self w)) = false ->
      execute_blockchain_action action_data now now_iso w =
      (ARaise (WalrusAgentError
                 ("Failed to execute blockchain action: "
                    ++ "Private key not set. Cannot execute transactions.")),
       w)) /\
  (forall object_id w,
      match fst (get_blockchain_object E object_id w) with
      | AOk _ => True
      | ARaise (WalrusAgentError m) =>
          exists m',
            m = ("Failed to get blockchain object " ++ object_id ++ ": "
                   ++ "Failed to get object " ++ object_id ++ ": " ++ m')%string
      | ARaise (Uncaught _) => False
      end).
Proof.
  split.
  - intros action_data now now_iso w Hkey.
    unfold execute_blockchain_action, except_BlockchainError,
      execute_transaction, bind, get_self.
    now rewrite Hkey.
  - intros object_id w.
    unfold get_blockchain_object, except_BlockchainError, get_object,
      try_except, raise.
    destruct (_make_rpc_call E "sui_getObject" _ w) as [[v|e] w1]; simpl;
      [exact I|].
    exists (exn_msg e). now rewrite !str_app_assoc.
Qed.

End AgentProperties.

Lemma register_then_remove_witness :
  let E := shipped (scripted [] (RequestException "refused")) in
  let agent := {| event_handlers := []; event_subscriptions := [] |} in
  exists agent1 w1,
    _register_event_handler agent "price_update" (fun _ => Ok tt) None 17
                            (fresh E None) = (Ok agent1, w1) /\
    remove_event_handler E agent1 "price_update" w1 =
    (Ok true, agent, fresh E None).
Proof.
  intros E agent.
  apply (register_then_remove E agent "price_update" (fun _ => Ok tt) None 17
                              (fresh E None)); reflexivity.
Defined.

Lemma second_registration_orphans_first_witness :
  let E := shipped (scripted [] (RequestException "refused")) in
  let agent := {| event_handlers := []; event_subscriptions := [] |} in
  let first := fun _ : dict => Ok tt in
  let second := fun _ : dict => Raise (Exn ValueError "x") in
  let r1 := _register_event_handler agent "checkpoint" first None 17
                                    (fresh E None) in
  exists agent1 agent2 w2 agent3 w3,
    r1 = (Ok agent1, snd r1) /\
    _register_event_handler agent1 "checkpoint" second None 18 (snd r1) =
    (Ok agent2, w2) /\
    remove_event_handler E agent2 "checkpoint" w2 = (Ok true, agent3, w3) /\
    assoc_get (registry w3) "checkpoint_17_0" =
    Some {| event_type := CHECKPOINT; callback := first;
            filter_params := [] |} /\
    assoc_get (event_subscriptions agent3) "checkpoint" = None /\
    remove_event_handler E agent3 "checkpoint" w3 = (Ok false, agent3, w3).
Proof.
  intros E agent first second r1.
  apply (second_registration_orphans_first
           E agent "checkpoint" first second None None 17 18 (fresh E None)
           (NoDup_nil _)).
  discriminate.
Defined.

Lemma agent_gateway_errors_witness :
  let E := shipped (scripted [] (RequestException "refused")) in
  execute_blockchain_action [("kind", VStr "transfer")] 17 "2023-11-14"
                            (fresh E None) =
  (ARaise (WalrusAgentError
             ("Failed to execute blockchain action: "
                ++ "Private key not set. Cannot execute transactions.")),
   fresh E None).
Proof.
  intros E.
  apply (proj1 (agent_gateway_errors E)).
  reflexivity.
Defined.

(** ** [utils.py] *)

Section Utilities.

Lemma str_length_app (a b : string) :
  String.length (a ++ b) = (String.length a + String.length b)%nat.
Proof. induction a as [|c a IH]; simpl; [reflexivity|now rewrite IH]. Qed.

Lemma substring_take (n : nat) :
  forall s : string,
    (n <= String.length s)%nat ->
    exists rest,
      s = (String.substring 0 n s ++ rest)%string /\
      String.length (String.substring 0 n s) = n.
Proof.
  induction n as [|n IH]; intros s Hn.
  - exists s. now destruct s.
  - destruct s as [|c s]; simpl in Hn; [lia|].
    destruct (IH s) as (rest & Hs & Hlen); [lia|].
    exists rest. simpl. split; [now rewrite <- Hs|now rewrite Hlen].
Qed.

(** X21.  [truncate_text] returns a text that fits as it is.  A longer text
    is cut to its first [max_length - 3] characters followed by three dots,
    which makes [max_length] characters, when [max_length] is at least 3;
    below 3 the result is longer than [max_length]. *)
Theorem truncate_text_length (text : string) (max_length : Z) :
  let len := Z.of_nat (String.length text) in
  let out := utils.truncate_text text max_length in
  ((len <= max_length)%Z -> out = text) /\
  ((max_length < len)%Z -> (3 <= max_length)%Z ->
   exists kept rest,
     text = (kept ++ rest)%string /\
     out = (kept ++ "...")%string /\
     Z.of_nat (String.length kept) = (max_length - 3)%Z /\
     Z.of_nat (String.length out) = max_length) /\
  ((max_length < len)%Z -> (max_length < 3)%Z ->
   (max_length < Z.of_nat (String.length out))%Z).
Proof.
  cbv zeta. unfold utils.truncate_text.
  destruct (Z.of_nat (String.length text) <=? max_length)%Z eqn:Hfit.
  - apply Z.leb_le in Hfit. split; [reflexivity|]. split; intros; lia.
  - apply Z.leb_gt in Hfit. split; [lia|]. split.
    + intros _ Hmax. unfold utils.slice_to.
      assert ((max_length - 3 <? 0)%Z = false) as -> by (apply Z.ltb_ge; lia).
      rewrite Z.min_l by lia.
      destruct (substring_take (Z.to_nat (max_length - 3)) text)
        as (rest & Htext & Hlen); [lia|].
      exists (String.substring 0 (Z.to_nat (max_length - 3)) text), rest.
      split; [exact Htext|]. split; [reflexivity|].
      rewrite str_length_app, Hlen. simpl. lia.
    + intros _ Hmax. rewrite str_length_app. simpl. lia.
Qed.

Lemma find_app {A} (f : A -> bool) (l1 l2 : list A) :
  find f (l1 ++ l2) =
  match find f l1 with
  | Some x => Some x
  | None => find f l2
  end.
Proof.
  induction l1 as [|x l1 IH]; simpl; [reflexivity|].
  now destruct (f x).
Qed.

Lemma find_none_forall {A} (f : A -> bool) (l : list A) :
  Forall (fun x => f x = false) l -> find f l = None.
Proof.
  induction 1 as [|x l Hx _ IH]; simpl; [reflexivity|]. now rewrite Hx.
Qed.

Lemma find_last {A} (f : A -> bool) (before after : list A) (m : A) :
  f m = true ->
  Forall (fun x => f x = false) after ->
  find f (rev (before ++ m :: after)) = Some m.
Proof.
  intros Hm Hafter. rewrite rev_app_distr. simpl. rewrite <- app_assoc.
  rewrite find_app, find_none_forall.
  - simpl. now rewrite Hm.
  - rewrite Forall_forall in *. intros x Hx. apply Hafter.
    now apply in_rev.
Qed.

(** X22.  [extract_summary] is made from the last message of the assistant
    when there is one, whatever the user said after it; otherwise from the
    last message of the user, behind ["User: "]; it is a fixed text when
    there is no message at all or none of these two roles. *)
Theorem extract_summary_source (messages : list utils.message)
        (max_length : Z) :
  (messages = [] ->
   utils.extract_summary messages max_length = "No messages") /\
  (forall before m after,
      messages = before ++ m :: after ->
      utils.has_role "assistant" m = true ->
      Forall (fun x => utils.has_role "assistant" x = false) after ->
      utils.extract_summary messages max_length =
      utils.truncate_text (utils.content_of m) max_length) /\
  (forall before m after,
      messages = before ++ m :: after ->
      Forall (fun x => utils.has_role "assistant" x = false) messages ->
      utils.has_role "user" m = true ->
      Forall (fun x => utils.has_role "user" x = false) after ->
      utils.extract_summary messages max_length =
      ("User: " ++ utils.truncate_text (utils.content_of m) max_length)%string)
  /\
  (messages <> [] ->
   Forall (fun x => utils.has_role "assistant" x = false) messages ->
   Forall (fun x => utils.has_role "user" x = false) messages ->
   utils.extract_summary messages max_length = "No relevant messages").
Proof.
  assert (forall f, Forall (fun x : utils.message => f x = false) messages ->
                    find f (rev messages) = None) as Hnone.
  { intros f H. apply find_none_forall.
    rewrite Forall_forall in *. intros x Hx. apply H. now apply in_rev. }
  unfold utils.extract_summary. split; [|split; [|split]].
  - now intros ->.
  - intros before m after -> Hm Hafter.
    rewrite (find_last _ before after m Hm Hafter).
    now destruct before.
  - intros before m after Heq Hno Hm Hafter.
    rewrite (Hnone _ Hno). subst messages.
    rewrite (find_last _ before after m Hm Hafter).
    now destruct before.
  - intros Hne Hno1 Hno2. rewrite (Hnone _ Hno1), (Hnone _ Hno2).
    now destruct messages.
Qed.

Lemma dict_get_assoc (d : dict) (k : string) : dict_get d k = assoc_get d k.
Proof.
  induction d as [|[k' v] rest IH]; simpl; [reflexivity|]. now rewrite IH.
Qed.

Lemma merge_dicts_nil (dict1 : dict) : utils.merge_dicts dict1 [] = dict1.
Proof. reflexivity. Qed.

Lemma merge_dicts_cons (dict1 : dict) (key : string) (v : value)
      (rest : dict) :
  utils.merge_dicts dict1 ((key, v) :: rest) =
  utils.merge_dicts
    (dict_set dict1 key
              match dict_get dict1 key, v with
              | Some (VDict inner), VDict b => VDict (utils.merge_dicts inner b)
              | _, _ => v
              end)
    rest.
Proof.
  unfold utils.merge_dicts. cbn [utils.merge_into].
  destruct (dict_get dict1 key) as [[| | | | |inner]|]; try reflexivity.
  now destruct v.
Qed.

Lemma dict_get_absent (d : dict) (k : string) :
  ~ In k (map fst d) -> dict_get d k = None.
Proof.
  intros Hk. rewrite dict_get_assoc. apply assoc_mem_get.
  destruct (assoc_mem d k) eqn:Hmem; [|reflexivity].
  apply assoc_mem_in in Hmem. contradiction.
Qed.

(** X23.  What [merge_dicts] holds under a key: when the second dict has
    the key, its value, merged in turn with the value of the first dict
    when both are dicts; otherwise what the first dict holds.  So no key of
    either dict is lost.  (The keys of the second dict are distinct, as
    those of a dict are.) *)
Theorem merge_dicts_lookup (dict2 : dict) :
  NoDup (map fst dict2) ->
  forall (dict1 : dict) (key : string),
    dict_get (utils.merge_dicts dict1 dict2) key =
    match dict_get dict2 key with
    | Some v2 =>
        Some match dict_get dict1 key, v2 with
             | Some (VDict a), VDict b => VDict (utils.merge_dicts a b)
             | _, _ => v2
             end
    | None => dict_get dict1 key
    end.
Proof.
  induction dict2 as [|[k v] rest IH]; intros Hd dict1 key.
  - reflexivity.
  - inversion Hd as [|? ? Hnotin Hrest]; subst.
    rewrite merge_dicts_cons, (IH Hrest). simpl.
    destruct (String.eqb key k) eqn:Hk.
    + apply String.eqb_eq in Hk. subst k.
      rewrite (dict_get_absent rest key Hnotin).
      apply dict_get_set.
    + assert (forall x, dict_get (dict_set dict1 k x) key = dict_get dict1 key)
        as Hother.
      { intros x. rewrite !dict_get_assoc. unfold dict_set.
        apply assoc_get_set_other. apply String.eqb_neq. exact Hk. }
      now rewrite Hother.
Qed.

End Utilities.

Lemma truncate_text_length_witness :
  utils.truncate_text "checkpoint" 12 = "checkpoint" /\
  (2 < Z.of_nat (String.length (utils.truncate_text "checkpoint" 2)))%Z.
Proof.
  split.
  - apply (proj1 (truncate_text_length "checkpoint" 12)). simpl. lia.
  - apply (proj2 (proj2 (truncate_text_length "checkpoint" 2))); simpl; lia.
Defined.

Lemma extract_summary_source_witness :
  utils.extract_summary
    [[("role", "assistant"); ("content", "first")];
     [("role", "assistant"); ("content", "second")];
     [("role", "user"); ("content", "thanks")]] 100 =
  utils.truncate_text
    (utils.content_of [("role", "assistant"); ("content", "second")]) 100.
Proof.
  apply (proj1 (proj2 (extract_summary_source
                         [[("role", "assistant"); ("content", "first")];
                          [("role", "assistant"); ("content", "second")];
                          [("role", "user"); ("content", "thanks")]] 100))
               [[("role", "assistant"); ("content", "first")]]
               [("role", "assistant"); ("content", "second")]
               [[("role", "user"); ("content", "thanks")]]).
  - reflexivity.
  - reflexivity.
  - repeat constructor.
Defined.

Lemma merge_dicts_lookup_witness :
  dict_get (utils.merge_dicts
              [("a", VDict [("x", VInt 1)]); ("b", VInt 2)]
              [("a", VDict [("y", VInt 3)])]) "a" =
  Some (VDict (utils.merge_dicts [("x", VInt 1)] [("y", VInt 3)])).
Proof.
  apply (merge_dicts_lookup [("a", VDict [("y", VInt 3)])]).
  constructor; [intros []|constructor].
Defined.

(** ** The order of the fetches *)

Section FetchOrder.

Variable E : Env.

Lemma fetched_app (t u : list effect) :
  fetched (t ++ u) = fetched t ++ fetched u.
Proof. apply flat_map_app. Qed.

Lemma fetched_none (t : list effect) :
  Forall (fun e => fetch_of e = None) t -> fetched t = [].
Proof.
  induction 1 as [|e t He _ IH]; [reflexivity|].
  unfold fetched in *. simpl. now rewrite He, IH.
Qed.

Lemma fetched_only (c : Z) (t : list effect) :
  Forall (fun e => fetch_of e = Some c \/ fetch_of e = None) t ->
  Forall (eq c) (fetched t).
Proof.
  induction 1 as [|e t He _ IH]; [constructor|].
  unfold fetched in *. simpl. destruct He as [-> | ->]; simpl; auto.
Qed.

Lemma fetch_of_rpc_events (c : Z) (e : effect) :
  rpc_effect "sui_getCheckpointEvents" [VInt c] e ->
  fetch_of e = Some c \/ fetch_of e = None.
Proof. intros [[url ->]|[d ->]]; [now left|now right]. Qed.

Lemma fetch_of_rpc_latest (e : effect) :
  rpc_effect "sui_getLatestCheckpointSequenceNumber" [] e -> fetch_of e = None.
Proof. now intros [[url ->]|[d ->]]. Qed.

Lemma fetch_of_call (e : effect) : is_call e -> fetch_of e = None.
Proof. now intros (id & ev & ->). Qed.

Lemma sorted_app (l1 l2 : list Z) :
  StronglySorted Z.le l1 ->
  StronglySorted Z.le l2 ->
  (forall a b, In a l1 -> In b l2 -> (a <= b)%Z) ->
  StronglySorted Z.le (l1 ++ l2).
Proof.
  intros H1 H2 Hle. induction H1 as [|a l1 Hl1 IH Ha]; simpl; [exact H2|].
  constructor.
  - apply IH. intros x y Hx Hy. apply Hle; [now right|exact Hy].
  - apply Forall_app. split; [exact Ha|].
    apply Forall_forall. intros y Hy. apply Hle; [now left|exact Hy].
Qed.

Lemma sorted_constant (c : Z) (l : list Z) :
  Forall (eq c) l -> StronglySorted Z.le l.
Proof.
  induction 1 as [|x l <- Hl IH]; constructor; [exact IH|].
  eapply Forall_impl; [|exact Hl]. intros y <-. lia.
Qed.

(** One pass of the [for] loop fetches its own checkpoint only. *)
Lemma process_checkpoint_fetched (c : Z) (w : world) :
  exists t,
    Forall (eq c) (fetched t) /\
    (process_checkpoint E c w = (Ok tt, moved w (Some c) t) \/
     exists e, process_checkpoint E c w = (Raise e, add_trace w t)).
Proof.
  destruct (get_events_by_checkpoint_returns E c w)
    as (events & t1 & Hget & Ht1 & _).
  destruct (appends_process_events events (add_trace w t1))
    as (t2 & Hw2 & Ht2).
  exists (t1 ++ t2). split.
  { apply (fetched_only c), Forall_app.
    split; eapply Forall_impl; try eassumption.
    - intros e. apply fetch_of_rpc_events.
    - intros e He. right. now apply fetch_of_call. }
  unfold process_checkpoint, bind. rewrite Hget.
  destruct (_process_events events (add_trace w t1)) as [[[]|e] w2];
    simpl in Hw2; subst w2; rewrite add_trace_app.
  - left. rewrite set_checkpoint_moved.
    now rewrite add_trace_as_moved, moved_moved, app_nil_r.
  - right. now exists e.
Qed.

Lemma for_each_checkpoint_fetched (n : nat) :
  forall (lo : Z) (w : world),
    cursor w = Some (lo - 1)%Z ->
    exists j t r,
      for_each (range_from lo n) (process_checkpoint E) w =
      (r, moved w (Some (lo - 1 + Z.of_nat j)%Z) t) /\
      StronglySorted Z.le (fetched t) /\
      Forall (fun c => (lo <= c <= lo + Z.of_nat j)%Z) (fetched t).
Proof.
  induction n as [|n IH]; intros lo w Hcur.
  - exists 0%nat, [], (Ok tt). simpl.
    rewrite Z.add_0_r, <- Hcur, moved_same.
    repeat split; constructor.
  - cbn [range_from for_each]. unfold bind.
    destruct (process_checkpoint_fetched lo w) as (t1 & Ht1 & [Hok|[e He]]).
    + rewrite Hok.
      destruct (IH (lo + 1)%Z (moved w (Some lo) t1))
        as (j & t & r & Hrun & Hsorted & Hbounds).
      { unfold cursor, moved. simpl. f_equal. lia. }
      exists (S j), (t1 ++ t), r. rewrite Hrun, moved_moved.
      split; [do 2 f_equal; f_equal; lia|].
      rewrite fetched_app. rewrite Forall_forall in Ht1, Hbounds. split.
      * apply sorted_app;
          [apply (sorted_constant lo); now apply Forall_forall|exact Hsorted|].
        intros a b Ha Hb. rewrite <- (Ht1 a Ha).
        specialize (Hbounds b Hb). lia.
      * apply Forall_app. split; apply Forall_forall.
        -- intros a Ha. rewrite <- (Ht1 a Ha). lia.
        -- intros b Hb. specialize (Hbounds b Hb). lia.
    + rewrite He. exists 0%nat, t1, (Raise e).
      rewrite Z.add_0_r, <- Hcur, <- add_trace_as_moved.
      split; [reflexivity|]. split; [now apply (sorted_constant lo)|].
      eapply Forall_impl; [|exact Ht1]. intros a <-. lia.
Qed.

Lemma poll_cycle_fetched (w : world) (k : Z) :
  cursor w = Some k ->
  exists k' t,
    poll_cycle E w = (Ok tt, moved w (Some k') t) /\
    (k <= k')%Z /\
    StronglySorted Z.le (fetched t) /\
    Forall (fun c => (k < c <= k' + 1)%Z) (fetched t).
Proof.
  intros Hcur.
  destruct (appends_get_latest_checkpoint E w) as (t0 & Hw0 & Ht0).
  assert (fetched t0 = []) as Hf0.
  { apply fetched_none. eapply Forall_impl; [|exact Ht0].
    apply fetch_of_rpc_latest. }
  rewrite poll_cycle_unfold.
  destruct (get_latest_checkpoint E w) as [[latest|e] w0];
    simpl in Hw0; subst w0.
  - destruct (for_each_checkpoint_fetched
                (Z.to_nat (latest + 1 - (k + 1))) (k + 1)%Z (add_trace w t0))
      as (j & t & r & Hrun & Hsorted & Hbounds).
    { change (cursor (add_trace w t0)) with (cursor w). rewrite Hcur.
      f_equal. lia. }
    rewrite add_trace_as_moved, moved_moved, Hcur in Hrun.
    assert (forall d,
               StronglySorted Z.le (fetched ((t0 ++ t) ++ [Wait d])) /\
               Forall (fun c => (k < c <= k + 1 - 1 + Z.of_nat j + 1)%Z)
                      (fetched ((t0 ++ t) ++ [Wait d]))) as Hall.
    { intros d. rewrite !fetched_app, Hf0. simpl. rewrite app_nil_r.
      split; [exact Hsorted|].
      eapply Forall_impl; [|exact Hbounds]. intros c Hc. simpl in Hc. lia. }
    exists (k + 1 - 1 + Z.of_nat j)%Z.
    exists ((t0 ++ t) ++ [Wait (match r with
                                | Ok _ => POLLING_INTERVAL E
                                | Raise _ => RETRY_DELAY E
                                end)]).
    split; [|split; [lia|apply Hall]].
    change (cursor (add_trace w t0)) with (cursor w). rewrite Hcur.
    unfold py_range.
    rewrite (add_trace_as_moved w t0), Hcur, Hrun.
    destruct r as [[]|e]; now rewrite add_trace_moved.
  - exists k, (t0 ++ [Wait (RETRY_DELAY E)]).
    rewrite add_trace_app, add_trace_as_moved, Hcur.
    split; [reflexivity|]. split; [lia|].
    rewrite fetched_app, Hf0. simpl. split; constructor.
Qed.

(** X24.  Through any number of cycles of the polling loop the checkpoints
    are fetched in ascending order, attempt after attempt: a fetch of a
    checkpoint never comes after a fetch of a later one.  Every fetch is
    for a checkpoint after the cursor the loop started with, and none goes
    further than one past the cursor the loop ends with. *)
Theorem checkpoints_fetched_in_order (iterations : nat) :
  forall (w : world) (k : Z),
    cursor w = Some k ->
    exists k' t,
      poll_cycles E iterations w = (Ok tt, moved w (Some k') t) /\
      (k <= k')%Z /\
      StronglySorted Z.le (fetched t) /\
      Forall (fun c => (k < c <= k' + 1)%Z) (fetched t).
Proof.
  induction iterations as [|n IH]; intros w k Hcur.
  - exists k, []. simpl. rewrite <- Hcur, moved_same.
    repeat split; (lia || constructor).
  - cbn [poll_cycles]. unfold bind.
    destruct (poll_cycle_fetched w k Hcur)
      as (k1 & t1 & Hrun & Hle & Hsorted1 & Hb1).
    rewrite Hrun.
    destruct (IH (moved w (Some k1) t1) k1 eq_refl)
      as (k' & t & Hrun' & Hle' & Hsorted & Hb).
    exists k', (t1 ++ t). rewrite Hrun', moved_moved.
    split; [reflexivity|]. split; [lia|].
    rewrite fetched_app. rewrite Forall_forall in Hb1, Hb. split.
    + apply sorted_app; [assumption|assumption|].
      intros a b Ha Hb'. specialize (Hb1 a Ha). specialize (Hb b Hb'). lia.
    + apply Forall_app. split; apply Forall_forall.
      * intros a Ha. specialize (Hb1 a Ha). lia.
      * intros b Hb'. specialize (Hb b Hb'). lia.
Qed.

End FetchOrder.

Lemma checkpoints_fetched_in_order_witness :
  let F := shipped (node_refusing 3 4) in
  let w := moved (fresh F None) (Some 1%Z) [] in
  exists k' t,
    poll_cycles F 2 w = (Ok tt, moved w (Some k') t) /\
    (1 <= k')%Z /\
    StronglySorted Z.le (fetched t) /\
    Forall (fun c => (1 < c <= k' + 1)%Z) (fetched t).
Proof.
  intros F w.
  apply (checkpoints_fetched_in_order F 2 w 1%Z).
  reflexivity.
Defined.
